(** * histyle: the registry of highlighting styles (histyles.go)

    A shallow embedding of the package-level state of [histyle] and of
    the functions of histyles.go that act on it, followed by the
    properties of the style registry.

    Go values are modelled as follows.
    - [*Style] is an address into a heap of [Style] values, [None] being
      the nil pointer.
    - [Styles], a [map[string]*Style], is [None] for the nil map and
      [Some m] for an allocated one.
    - A [range] over a map visits the entries in an order the runtime
      picks; the pick is the section variable [order].
    - A Go [error] result is an [option error], [None] being nil.
    - A run-time panic is the [Panic] outcome of [result].
    - A file holds either bytes that are no JSON text or a JSON
      document; the JSON text itself is not modelled, member names are
      taken as the strings they denote. *)

From stdpp Require Import gmap strings list fin_maps sorting.

Local Open Scope string_scope.
Local Open Scope list_scope.

(** ** Go values *)

(** Address of a heap-allocated [Style]. *)
Abbreviation loc := positive (only parsing).

(** [*Style]: [None] is the nil pointer. *)
Abbreviation ptr := (option positive) (only parsing).

(** [type Styles map[string]*Style]: [None] is the nil map. *)
Abbreviation Styles := (option (gmap string (option positive))) (only parsing).

(** The entries of a collection; a nil map reads as an empty one. *)
Definition entries (hs : Styles) : gmap string ptr := default ∅ hs.

(** [len(hs)] *)
Definition len (hs : Styles) : nat := size (entries hs).

(** [hs[k]]: the zero value, a nil pointer, when [k] is absent. *)
Definition index (hs : Styles) (k : string) : ptr :=
  default None (entries hs !! k).

(** Outcome of a call that may panic. *)
Inductive result (A : Type) : Type :=
  | Ok (a : A)
  | Panic (msg : string).
Arguments Ok {A} a.
Arguments Panic {A} msg.

(** The errors returned by the file and JSON operations. *)
Inductive error : Type :=
  | ReadError            (* ioutil.ReadFile failed *)
  | SyntaxError          (* the bytes are not valid JSON *)
  | UnmarshalTypeError   (* a JSON value does not fit the Go type *)
  | UnmarshalerError     (* the UnmarshalJSON of a value failed *)
  | MarshalError         (* json.MarshalIndent failed *)
  | WriteError.          (* ioutil.WriteFile failed *)

(** ** Map iteration order *)

(** [pick code l] lists the elements of [l] in the order selected by
    [code]: each number selects, modulo the number of elements left,
    the one to visit next; when [code] is used up the rest follows as
    it stands. Every permutation of [l] is [pick code l] for some
    [code]. *)
Fixpoint pick {A} (code : list nat) (l : list A) : list A :=
  match code with
  | [] => l
  | c :: code' =>
      match l !! (c mod length l) with
      | Some x => x :: pick code' (delete (c mod length l) l)
      | None => l
      end
  end.

(** Byte-wise lexicographic order on names, the order of [sort.Strings]
    and of the keys in the output of [encoding/json]. *)
Definition name_le (a b : string) : Prop := String.leb a b = true.

#[global] Instance name_le_dec a b : Decision (name_le a b).
Proof. unfold name_le. apply _. Defined.

(** The same order on the entries of a map, by their names. *)
Definition key_le {V} (x y : string * V) : Prop := name_le x.1 y.1.

(** The entries of a map in ascending order of their names. *)
Definition by_name {V} (m : gmap string V) : list (string * V) :=
  merge_sort key_le (map_to_list m).

(** ** Strings in JSON text

    A Go string is any sequence of bytes. [encoding/json] writes a
    string, a map key included, coerced to valid UTF-8: every byte
    that begins no well-formed sequence is written as the replacement
    character U+FFFD. *)

(** The bytes of a string, by value. *)
Fixpoint bytes_of (s : string) : list N :=
  match s with
  | EmptyString => []
  | String a s' => Ascii.N_of_ascii a :: bytes_of s'
  end.

Definition between (lo hi b : N) : bool := ((lo <=? b) && (b <=? hi))%N.

(** The table [first] of [unicode/utf8] with its accept ranges: the
    length of the sequence a first byte announces and the range its
    second byte must lie in; [None] for a byte that begins none. *)
Definition utf8_first (b0 : N) : option (nat * (N * N)) :=
  if (b0 <? 128)%N then Some (1, (0, 0)%N)
  else if (b0 <? 194)%N then None
  else if (b0 <? 224)%N then Some (2, (128, 191)%N)
  else if (b0 =? 224)%N then Some (3, (160, 191)%N)
  else if (b0 =? 237)%N then Some (3, (128, 159)%N)
  else if (b0 <? 240)%N then Some (3, (128, 191)%N)
  else if (b0 =? 240)%N then Some (4, (144, 191)%N)
  else if (b0 <? 244)%N then Some (4, (128, 191)%N)
  else if (b0 =? 244)%N then Some (4, (128, 143)%N)
  else None.

(** The size of the rune [utf8.DecodeRuneInString] finds at the head
    of the bytes; 0 stands for the invalid or cut-off sequence, for
    which it returns the error rune with size 1. *)
Definition rune_size (l : list N) : nat :=
  match l with
  | [] => 0
  | b0 :: l1 =>
      match utf8_first b0 with
      | None => 0
      | Some (1, _) => 1
      | Some (n, (lo, hi)) =>
          match l1 with
          | [] => 0
          | b1 :: l2 =>
              if between lo hi b1 && bool_decide (n - 2 ≤ length l2)%nat
                 && forallb (between 128 191) (take (n - 2) l2)
              then n else 0
          end
      end
  end.

(** U+FFFD in UTF-8 *)
Definition RuneError : string :=
  String (Ascii.ascii_of_N 239)
    (String (Ascii.ascii_of_N 191) (String (Ascii.ascii_of_N 189) EmptyString)).

(** The string a JSON string literal written by [encoding/json]
    denotes: well-formed sequences are kept, [skip] counting the bytes
    still to copy of the one at hand, and every other byte gives way to
    U+FFFD. *)
Fixpoint coerce (skip : nat) (s : string) : string :=
  match s with
  | EmptyString => EmptyString
  | String a s' =>
      match skip with
      | S k => String a (coerce k s')
      | 0 =>
          match rune_size (bytes_of (String a s')) with
          | 0 => RuneError +:+ coerce 0 s'
          | S k => String a (coerce k s')
          end
      end
  end.

Definition ToValidUTF8 (s : string) : string := coerce 0 s.


Section HiStyles.

(** ** What the file takes from elsewhere *)

(** [Style] is declared in style.go, outside this file. *)
Variable Style : Type.

(** [chroma.Style] and the conversion [FromChroma] of a single [Style]. *)
Variable ChromaStyle : Type.
Variable Style_FromChroma : ChromaStyle -> Style.

(** [styles.Registry] of the chroma package. *)
Variable styles_Registry : gmap string ChromaStyle.

(** What [cs.CopyFrom(nil)] leaves in a receiver [cs := &Style{}];
    [None] when that call panics. *)
Variable CopyFrom_nil : option Style.

(** The JSON form of a [Style], with its encoder and decoder. *)
Variable StyleDoc : Type.
Variable encodeStyle : Style -> option StyleDoc.

(** Outcome of decoding one style document into a [*Style] map element. *)
Inductive decoded : Type :=
  | Decoded (s : Style)       (* no error *)
  | Mismatch (partial : Style) (* type mismatch inside: best effort value kept, decoding goes on *)
  | Aborted.                  (* the value's unmarshaler failed: decoding stops *)

Variable decodeStyle : StyleDoc -> decoded.

(** [oswin.TheApp.AppPrefsDir()] and [filepath.Join] *)
Variable AppPrefsDir : string.
Variable filepath_Join : string -> string -> string.

(** The order in which the runtime ranges over a map. *)
Variable order : list nat.

(** ** JSON documents and files *)

(** Value of an object member. *)
Inductive jvalue : Type :=
  | JNull
  | JDoc (d : StyleDoc).

(** A JSON document, as far as decoding into [Styles] tells them apart. *)
Inductive json : Type :=
  | JTopNull
  | JObject (members : list (string * jvalue))
  | JOther.      (* array, string, number or boolean *)

(** Content of a file: bytes that are not valid JSON (an empty file
    is one such), or the text of a JSON document. *)
Inductive bytes : Type :=
  | Malformed
  | Text (j : json).

(** The step at which [ioutil.WriteFile] fails on a path. *)
Inductive fault : Type :=
  | OpenFails    (* os.OpenFile: nothing is created, nothing truncated *)
  | WriteFails   (* f.Write, once the file is created or truncated *)
  | CloseFails.  (* f.Close, once the text is written *)

(** The file system: the content of the files by path, the paths
    that cannot be read, and the paths on which a write fails, each
    with the step that fails. *)
Record filesys : Type := mkFS {
  files : gmap string bytes;
  unreadable : gset string;
  faults : gmap string fault
}.

(** [ioutil.ReadFile]: [None] is a failed read. *)
Definition ReadFile (fs : filesys) (filename : string) : option bytes :=
  if decide (filename ∈ unreadable fs) then None else files fs !! filename.

(** What is written to a path. *)
Definition put (fs : filesys) (filename : string) (b : bytes) : filesys :=
  mkFS (<[filename := b]> (files fs)) (unreadable fs) (faults fs).

(** [ioutil.WriteFile], for the texts [SaveJSON] writes. The file is
    opened with [O_WRONLY|O_CREATE|O_TRUNC], written and closed, and the
    first error of the three is returned. When the open fails the files
    are as before. When the write fails the file exists and holds the
    part of the text that got through, from nothing on: a text cut
    short, which for [null] and for an object is no valid JSON. When
    only the close fails the text is in the file. *)
Definition WriteFile (fs : filesys) (filename : string) (j : json)
  : filesys * option error :=
  match faults fs !! filename with
  | Some OpenFails => (fs, Some WriteError)
  | Some WriteFails => (put fs filename Malformed, Some WriteError)
  | Some CloseFails => (put fs filename (Text j), Some WriteError)
  | None => (put fs filename (Text j), None)
  end.

(** ** Package state *)

Record state : Type := mkState {
  heap : gmap loc Style;
  StdStyles : Styles;
  CustomStyles : Styles;
  AvailStyles : Styles;
  StyleDefault : string;
  StyleNames : list string;
  StylesChanged : bool;
  disk : filesys
}.

(** [var PrefsStylesFileName = "hi_styles.json"] *)
Definition PrefsStylesFileName : string := "hi_styles.json".

(** The pointee of a pointer. *)
Definition deref (h : gmap loc Style) (p : ptr) : option Style :=
  p ≫= (h !!.).

(** [for nm, v := range m] visits [range m] from left to right: the
    entries of [m], taken from their list by name as [order] selects. *)
Definition range {V} (m : gmap string V) : list (string * V) :=
  pick order (by_name m).

(** ** Collections *)

(** [func (hs *Styles) FromChroma(cs map[string]*chroma.Style)] *)
Definition FromChroma (hs : Styles) (cs : gmap string ChromaStyle)
    (h : gmap loc Style) : Styles * gmap loc Style :=
  let m0 := match hs with None => ∅ | Some m => m end in
  let '(m, h') :=
    foldl (λ '(m, h) '(nm, cse),
             let hse := fresh (dom h) in
             (<[nm := Some hse]> m, <[hse := Style_FromChroma cse]> h))
          (m0, h) (range cs) in
  (Some m, h').

(** [func (hs *Styles) CopyFrom(os Styles)] *)
Definition CopyFrom (hs : Styles) (os : Styles) : Styles :=
  let m0 := match hs with None => ∅ | Some m => m end in
  Some (foldl (λ m '(nm, cse), <[nm := cse]> m) m0 (range (entries os))).

(** [func (hs *Styles) Names() []string] *)
Definition Names (hs : Styles) : list string :=
  let nms := replicate (len hs) "" in
  fst (foldl (λ '(nms, idx) '(nm, _), (<[idx := nm]> nms, S idx))
             (nms, 0) (range (entries hs))).

(** [func MergeAvailStyles()] *)
Definition MergeAvailStyles (st : state) : state :=
  let avail := Some ∅ in
  let avail := CopyFrom avail (StdStyles st) in
  let avail := CopyFrom avail (CustomStyles st) in
  mkState (heap st) (StdStyles st) (CustomStyles st) avail
          (StyleDefault st) (Names avail) (StylesChanged st) (disk st).

(** ** JSON *)

(** [json.Unmarshal] filling a [Styles] map from the members of an
    object, in document order. Every member gets a map element of its
    own: [null] stores a nil pointer, a style document a pointer to a
    new [Style]. [saved] is the first type mismatch met so far. *)
Fixpoint decodeMembers (kvs : list (string * jvalue))
    (m : gmap string ptr) (h : gmap loc Style) (saved : option error)
  : gmap string ptr * gmap loc Style * option error :=
  match kvs with
  | [] => (m, h, saved)
  | (k, JNull) :: kvs' => decodeMembers kvs' (<[k := None]> m) h saved
  | (k, JDoc d) :: kvs' =>
      let l := fresh (dom h) in
      match decodeStyle d with
      | Decoded s =>
          decodeMembers kvs' (<[k := Some l]> m) (<[l := s]> h) saved
      | Mismatch s =>
          decodeMembers kvs' (<[k := Some l]> m) (<[l := s]> h)
            (Some (default UnmarshalTypeError saved))
      | Aborted => (m, h, Some UnmarshalerError)
      end
  end.

(** [json.Unmarshal(b, hs)] for [hs *Styles]. Invalid text is
    rejected before anything is stored; [null] sets the map to nil; an
    object is stored into the map at hand, allocated first when nil,
    and the entries already there are kept. *)
Definition Unmarshal (b : bytes) (hs : Styles) (h : gmap loc Style)
  : Styles * gmap loc Style * option error :=
  match b with
  | Malformed => (hs, h, Some SyntaxError)
  | Text JTopNull => (None, h, None)
  | Text JOther => (hs, h, Some UnmarshalTypeError)
  | Text (JObject kvs) =>
      let m0 := match hs with None => ∅ | Some m => m end in
      let '(m, h', err) := decodeMembers kvs m0 h None in
      (Some m, h', err)
  end.

(** One entry of the map as an object member: the key is written
    coerced to valid UTF-8, a nil pointer as [null], a style as its
    document. A pointer with no pointee does not occur in a Go heap and
    is reported as an error. *)
Definition encodeEntry (h : gmap loc Style) (kv : string * ptr)
  : option (string * jvalue) :=
  match kv.2 with
  | None => Some (ToValidUTF8 kv.1, JNull)
  | Some l => s ← h !! l; d ← encodeStyle s; Some (ToValidUTF8 kv.1, JDoc d)
  end.

(** [json.MarshalIndent(hs, "", "  ")] for [hs *Styles]: a nil map is
    [null]; the members of the object come out sorted by the keys of
    the map, as they are before the coercion; [None] is an error. *)
Definition MarshalIndent (hs : Styles) (h : gmap loc Style) : option json :=
  match hs with
  | None => Some JTopNull
  | Some m =>
      JObject <$> mapM (encodeEntry h) (by_name m)
  end.

(** [func (hs *Styles) OpenJSON(filename gi.FileName) error] *)
Definition OpenJSON (hs : Styles) (filename : string)
    (h : gmap loc Style) (fs : filesys)
  : Styles * gmap loc Style * option error :=
  match ReadFile fs filename with
  | None => (hs, h, Some ReadError)
  | Some b => Unmarshal b hs h
  end.

(** [func (hs *Styles) SaveJSON(filename gi.FileName) error]; the
    errors it also prints to the log are not recorded. *)
Definition SaveJSON (hs : Styles) (filename : string)
    (h : gmap loc Style) (fs : filesys) : filesys * option error :=
  match MarshalIndent hs h with
  | None => (fs, Some MarshalError)
  | Some b => WriteFile fs filename b
  end.

(** ** Preferences *)

(** The receiver [hs *Styles] of a method that also works on the
    package state: the address of one of the three collections. *)
Inductive stylesvar : Type := TheStd | TheCustom | TheAvail.

Definition load (hs : stylesvar) (st : state) : Styles :=
  match hs with
  | TheStd => StdStyles st
  | TheCustom => CustomStyles st
  | TheAvail => AvailStyles st
  end.

Definition store (hs : stylesvar) (v : Styles) (st : state) : state :=
  match hs with
  | TheStd =>
      mkState (heap st) v (CustomStyles st) (AvailStyles st)
              (StyleDefault st) (StyleNames st) (StylesChanged st) (disk st)
  | TheCustom =>
      mkState (heap st) (StdStyles st) v (AvailStyles st)
              (StyleDefault st) (StyleNames st) (StylesChanged st) (disk st)
  | TheAvail =>
      mkState (heap st) (StdStyles st) (CustomStyles st) v
              (StyleDefault st) (StyleNames st) (StylesChanged st) (disk st)
  end.

Definition set_heap (h : gmap loc Style) (st : state) : state :=
  mkState h (StdStyles st) (CustomStyles st) (AvailStyles st)
          (StyleDefault st) (StyleNames st) (StylesChanged st) (disk st).

Definition set_disk (fs : filesys) (st : state) : state :=
  mkState (heap st) (StdStyles st) (CustomStyles st) (AvailStyles st)
          (StyleDefault st) (StyleNames st) (StylesChanged st) fs.

Definition set_StylesChanged (b : bool) (st : state) : state :=
  mkState (heap st) (StdStyles st) (CustomStyles st) (AvailStyles st)
          (StyleDefault st) (StyleNames st) b (disk st).

(** [filepath.Join(pdir, PrefsStylesFileName)] *)
Definition prefsPath : string :=
  filepath_Join AppPrefsDir PrefsStylesFileName.

(** [func (hs *Styles) OpenPrefs() error] *)
Definition OpenPrefs (hs : stylesvar) (st : state) : state * option error :=
  let pnm := prefsPath in
  let st := set_StylesChanged false st in
  let '(v, h, err) := OpenJSON (load hs st) pnm (heap st) (disk st) in
  (store hs v (set_heap h st), err).

(** [func (hs *Styles) SavePrefs() error] *)
Definition SavePrefs (hs : stylesvar) (st : state) : state * option error :=
  let pnm := prefsPath in
  let st := set_StylesChanged false st in
  let st := MergeAvailStyles st in
  let '(fs, err) := SaveJSON (load hs st) pnm (heap st) (disk st) in
  (set_disk fs st, err).

(** ** Initialisation and lookup *)

(** Modelled from the spec: [func (hs *Style) CopyFrom(ss *Style)] is
    declared in style.go, which is missing; the spec calls it a deep
    copy, so the receiver ends up holding the value of [ss]. The spec
    is silent on a nil [ss]: that case is [CopyFrom_nil]. *)
Definition Style_CopyFrom (ss : option Style) : option Style :=
  match ss with
  | Some s => Some s
  | None => CopyFrom_nil
  end.

(** The first statements of [Init]: [InitHiTagNames], which fills the
    tag tables of another file and leaves this state alone, and
    [StdStyles.FromChroma(styles.Registry)]. *)
Definition Init_std (st : state) : state :=
  let '(std, h) := FromChroma (StdStyles st) styles_Registry (heap st) in
  store TheStd std (set_heap h st).

(** [Init] up to [CustomStyles.OpenPrefs()], whose error is dropped. *)
Definition Init_load (st : state) : state :=
  fst (OpenPrefs TheCustom (Init_std st)).

(** [func Init()] *)
Definition Init (st : state) : result state :=
  let st := Init_load st in
  if decide (len (CustomStyles st) = 0) then
    let ss := index (StdStyles st) (StyleDefault st) in
    match Style_CopyFrom (deref (heap st) ss) with
    | None => Panic "invalid memory address or nil pointer dereference"
    | Some v =>
        let cs := fresh (dom (heap st)) in
        match CustomStyles st with
        | None => Panic "assignment to entry in nil map"
        | Some m =>
            Ok (MergeAvailStyles
                  (store TheCustom (Some (<["custom-sample" := Some cs]> m))
                         (set_heap (<[cs := v]> (heap st)) st)))
        end
    end
  else Ok (MergeAvailStyles st).

(** [func AvailStyle(nm StyleName) *Style] *)
Definition AvailStyle (nm : string) (st : state) : result (ptr * state) :=
  let r := match AvailStyles st with
           | None => Init st
           | Some _ => Ok st
           end in
  match r with
  | Panic msg => Panic msg
  | Ok st =>
      match entries (AvailStyles st) !! nm with
      | Some p => Ok (p, st)
      | None => Ok (index (AvailStyles st) (StyleDefault st), st)
      end
  end.

(** ** Vocabulary of the properties *)

(** The names of a collection, without repetition, in ascending order. *)
Definition sorted_names (hs : Styles) : list string :=
  merge_sort name_le (elements (dom (entries hs))).

(** Every pointer stored in the map has a pointee, as in any Go heap. *)
Definition valid (h : gmap loc Style) (m : gmap string ptr) : Prop :=
  ∀ n l, m !! n = Some (Some l) → is_Some (h !! l).

(** What a collection holds: the style, or nil, under each name. *)
Definition view (h : gmap loc Style) (hs : Styles)
  : gmap string (option Style) :=
  deref h <$> entries hs.




(** What a member of a document decodes to without error: nil or a style. *)
Definition member_style (v : jvalue) : option (option Style) :=
  match v with
  | JNull => Some None
  | JDoc d => match decodeStyle d with
              | Decoded s => Some (Some s)
              | _ => None
              end
  end.

(** The members of an object by name; of two members of one name the
    later counts. *)
Definition members_by_name (kvs : list (string * jvalue))
  : gmap string jvalue :=
  list_to_map (reverse kvs).

(** The result of [AvailStyle] read off a state: the entry under the
    name, else the one under [StyleDefault]. *)
Definition fallback (st : state) (nm : string) : ptr :=
  match entries (AvailStyles st) !! nm with
  | Some p => p
  | None => index (AvailStyles st) (StyleDefault st)
  end.

(** * Properties *)

(** ** Iteration order *)

Lemma pick_Permutation {A} (code : list nat) (l : list A) : pick code l ≡ₚ l.
Proof.
  revert l. induction code as [|c code IH]; intros l; simpl; [done|].
  destruct (l !! (c mod length l)) as [x|] eqn:Hx; [|done].
  rewrite IH. symmetry. by apply delete_Permutation.
Qed.

(** No order of visit is left out. *)
Lemma pick_complete {A} (l l' : list A) :
  l ≡ₚ l' → ∃ code, pick code l = l'.
Proof.
  revert l. induction l' as [|x l' IH]; intros l Hperm.
  - apply Permutation_nil_r in Hperm as ->. by exists [].
  - assert (x ∈ l) as [i Hi]%list_elem_of_lookup
      by (rewrite Hperm; apply list_elem_of_here).
    destruct (IH (delete i l)) as [code Hcode].
    { apply (inj (cons x)). by rewrite <-delete_Permutation. }
    exists (i :: code). simpl.
    rewrite Nat.mod_small by (by eapply lookup_lt_Some).
    by rewrite Hi, Hcode.
Qed.

Lemma by_name_Permutation {V} (m : gmap string V) :
  by_name m ≡ₚ map_to_list m.
Proof. apply merge_sort_Permutation. Qed.

Lemma range_Permutation {V} (m : gmap string V) : range m ≡ₚ map_to_list m.
Proof. unfold range. by rewrite pick_Permutation, by_name_Permutation. Qed.

Lemma range_NoDup_fst {V} (m : gmap string V) : NoDup (range m).*1.
Proof. rewrite range_Permutation. apply NoDup_fst_map_to_list. Qed.

Lemma range_length {V} (m : gmap string V) : length (range m) = size m.
Proof. by rewrite range_Permutation, length_map_to_list. Qed.

Lemma range_fst_elem_of {V} (m : gmap string V) (nm : string) :
  nm ∈ (range m).*1 ↔ is_Some (m !! nm).
Proof.
  rewrite range_Permutation, list_elem_of_fmap. split.
  - intros [[k v] [-> Hkv%elem_of_map_to_list]]. by exists v.
  - intros [v Hv]. exists (nm, v). by rewrite elem_of_map_to_list.
Qed.

(** ** The loops over a map *)

(** Storing the entries of a list one after the other. *)
Lemma foldl_insert_union {V} (l : list (string * V)) (m0 : gmap string V) :
  foldl (λ m '(nm, v), <[nm := v]> m) m0 l = list_to_map (reverse l) ∪ m0.
Proof.
  revert m0. induction l as [|[k v] l IH]; intros m0; simpl.
  - by rewrite (left_id_L ∅ (∪)).
  - rewrite IH, reverse_cons, list_to_map_app. simpl.
    rewrite insert_empty, <-(assoc_L (∪)).
    by rewrite <-insert_union_singleton_l.
Qed.

Lemma foldl_insert_range {V} (m m0 : gmap string V) :
  foldl (λ m '(nm, v), <[nm := v]> m) m0 (range m) = m ∪ m0.
Proof.
  rewrite foldl_insert_union. f_equal.
  rewrite <-(list_to_map_to_list m) at 2.
  apply list_to_map_proper.
  - rewrite fmap_reverse, reverse_Permutation. apply range_NoDup_fst.
  - by rewrite reverse_Permutation, range_Permutation.
Qed.

(** [CopyFrom] adds the entries of [os] to the receiver, which it
    allocates when nil; on a name both hold, the entry of [os] stays. *)
Lemma CopyFrom_union (hs os : Styles) :
  CopyFrom hs os = Some (entries os ∪ entries hs).
Proof.
  unfold CopyFrom. rewrite foldl_insert_range. by destruct hs.
Qed.

(** The slice filled by index in [Names]. *)
Lemma Names_fill {V} (l : list (string * V)) (pre suf : list string) :
  length suf = length l →
  foldl (λ '(nms, idx) '(nm, _), (<[idx := nm]> nms, S idx))
        (pre ++ suf, length pre) l
  = (pre ++ l.*1, length pre + length l).
Proof.
  revert pre suf. induction l as [|[k v] l IH]; intros pre suf Hlen.
  - destruct suf; [|done]. simpl. by rewrite Nat.add_0_r.
  - destruct suf as [|s suf]; [done|]. simpl in *.
    rewrite insert_app_r_alt by done. rewrite Nat.sub_diag. simpl.
    rewrite (cons_middle k pre suf), (assoc_L (++)).
    replace (S (length pre)) with (length (pre ++ [k]))
      by (rewrite length_app; simpl; lia).
    rewrite (IH (pre ++ [k]) suf) by lia.
    rewrite <-(assoc_L (++)). simpl. f_equal.
    rewrite length_app. simpl. lia.
Qed.

(** [Names] lists the names in the order of the iteration. *)
Lemma Names_range (hs : Styles) : Names hs = (range (entries hs)).*1.
Proof.
  unfold Names.
  pose proof (Names_fill (range (entries hs)) [] (replicate (len hs) "")) as H.
  simpl in H. rewrite H; [done|].
  by rewrite length_replicate, range_length.
Qed.

(** ** Merging the standard and the custom styles *)

Lemma MergeAvailStyles_Avail (st : state) :
  AvailStyles (MergeAvailStyles st)
  = Some (entries (CustomStyles st) ∪ entries (StdStyles st)).
Proof.
  unfold MergeAvailStyles. simpl. rewrite !CopyFrom_union. simpl.
  by rewrite (right_id_L ∅ (∪)).
Qed.

Lemma MergeAvailStyles_Names (st : state) :
  StyleNames (MergeAvailStyles st)
  = (range (entries (AvailStyles (MergeAvailStyles st)))).*1.
Proof. unfold MergeAvailStyles. simpl. apply Names_range. Qed.

(** C1. After [MergeAvailStyles], a name of [CustomStyles] is bound in
    [AvailStyles] to the entry [CustomStyles] has for it, and a name of
    [StdStyles] that [CustomStyles] lacks is bound to the entry of
    [StdStyles]: on a collision the custom entry wins. *)
Theorem MergeAvailStyles_custom_wins (st : state) (n : string) :
  (∀ p, entries (CustomStyles st) !! n = Some p →
        entries (AvailStyles (MergeAvailStyles st)) !! n = Some p) ∧
  (∀ p, entries (StdStyles st) !! n = Some p →
        entries (CustomStyles st) !! n = None →
        entries (AvailStyles (MergeAvailStyles st)) !! n = Some p).
Proof.
  rewrite MergeAvailStyles_Avail. simpl. split.
  - intros p Hc. by apply lookup_union_Some_l.
  - intros p Hs Hc. by rewrite lookup_union_r.
Qed.

Lemma elements_dom_fst {V} (m : gmap string V) :
  elements (dom m) ≡ₚ (map_to_list m).*1.
Proof.
  apply NoDup_Permutation.
  - apply NoDup_elements.
  - apply NoDup_fst_map_to_list.
  - intros k. rewrite elem_of_elements, elem_of_dom, list_elem_of_fmap.
    split.
    + intros [v Hv]. exists (k, v). by rewrite elem_of_map_to_list.
    + intros [[k' v] [-> Hkv%elem_of_map_to_list]]. by exists v.
Qed.

(** C4, as the code has it. After [MergeAvailStyles], [StyleNames] holds
    every name of [AvailStyles] once and nothing else, so it is a
    rearrangement of the sorted names; the order is that in which the
    iteration visits [AvailStyles]. *)
Theorem MergeAvailStyles_StyleNames (st : state) :
  NoDup (StyleNames (MergeAvailStyles st)) ∧
  (∀ n, n ∈ StyleNames (MergeAvailStyles st)
        ↔ is_Some (entries (AvailStyles (MergeAvailStyles st)) !! n)) ∧
  StyleNames (MergeAvailStyles st)
    ≡ₚ sorted_names (AvailStyles (MergeAvailStyles st)) ∧
  StyleNames (MergeAvailStyles st)
  = (range (entries (AvailStyles (MergeAvailStyles st)))).*1.
Proof.
  rewrite MergeAvailStyles_Names. split; [|split; [|split]].
  - apply range_NoDup_fst.
  - intros n. apply range_fst_elem_of.
  - unfold sorted_names.
    by rewrite merge_sort_Permutation, elements_dom_fst, range_Permutation.
  - done.
Qed.

(** C10. [MergeAvailStyles] leaves the heap of styles, [StdStyles],
    [CustomStyles], [StyleDefault], [StylesChanged] and the files as
    they are, hence every entry of the two sources and its style; and
    what it stores in [AvailStyles] and [StyleNames] owes nothing to
    what they held before. *)
Theorem MergeAvailStyles_frame (st : state) :
  heap (MergeAvailStyles st) = heap st ∧
  StdStyles (MergeAvailStyles st) = StdStyles st ∧
  CustomStyles (MergeAvailStyles st) = CustomStyles st ∧
  StyleDefault (MergeAvailStyles st) = StyleDefault st ∧
  StylesChanged (MergeAvailStyles st) = StylesChanged st ∧
  disk (MergeAvailStyles st) = disk st ∧
  (∀ n, deref (heap (MergeAvailStyles st))
              (index (StdStyles (MergeAvailStyles st)) n)
        = deref (heap st) (index (StdStyles st) n)) ∧
  (∀ n, deref (heap (MergeAvailStyles st))
              (index (CustomStyles (MergeAvailStyles st)) n)
        = deref (heap st) (index (CustomStyles st) n)) ∧
  (∀ avail names,
     MergeAvailStyles
       (mkState (heap st) (StdStyles st) (CustomStyles st) avail
                (StyleDefault st) names (StylesChanged st) (disk st))
     = MergeAvailStyles st).
Proof. by repeat split. Qed.

(** ** Allocation *)

Lemma fresh_heap (h : gmap loc Style) : h !! fresh (dom h) = None.
Proof. apply not_elem_of_dom, is_fresh. Qed.

Lemma alloc_subseteq (h : gmap loc Style) (s : Style) :
  h ⊆ <[fresh (dom h) := s]> h.
Proof. apply insert_subseteq, fresh_heap. Qed.


(** ** Conversion of the chroma styles *)

Lemma FromChroma_fold (l : list (string * ChromaStyle))
    (m0 : gmap string ptr) (h0 : gmap loc Style) :
  NoDup l.*1 →
  ∃ m h,
    foldl (λ '(m, h) '(nm, cse),
             let hse := fresh (dom h) in
             (<[nm := Some hse]> m, <[hse := Style_FromChroma cse]> h))
          (m0, h0) l = (m, h) ∧
    h0 ⊆ h ∧
    (∀ n c, (n, c) ∈ l →
       ∃ a, m !! n = Some (Some a) ∧ h !! a = Some (Style_FromChroma c)) ∧
    (∀ n, n ∉ l.*1 → m !! n = m0 !! n).
Proof.
  revert m0 h0. induction l as [|[k c] l IH]; intros m0 h0 Hnd.
  - exists m0, h0. split; [done|]. split; [done|]. split; [|done].
    intros n c' Hin. by apply elem_of_nil in Hin.
  - simpl in *. apply NoDup_cons in Hnd as [Hk Hnd].
    destruct (IH (<[k := Some (fresh (dom h0))]> m0)
                 (<[fresh (dom h0) := Style_FromChroma c]> h0) Hnd)
      as (m & h & Hfold & Hsub & Hin & Hout).
    exists m, h. split; [done|]. split; [|split].
    + etrans; [apply alloc_subseteq|done].
    + intros n c' [Heq|Hl]%elem_of_cons.
      * simplify_eq. exists (fresh (dom h0)). split.
        -- rewrite Hout by done. apply lookup_insert_eq.
        -- eapply lookup_weaken; [|done]. apply lookup_insert_eq.
      * by apply Hin.
    + intros n Hn. apply not_elem_of_cons in Hn as [Hne Hn].
      rewrite Hout by done. by rewrite lookup_insert_ne.
Qed.

(** [FromChroma] binds every name of [cs] to a style converted from
    the one [cs] has, keeps the other names of the receiver, and only
    adds to the heap. *)
Lemma FromChroma_spec (hs : Styles) (cs : gmap string ChromaStyle)
    (h : gmap loc Style) :
  ∃ m h',
    FromChroma hs cs h = (Some m, h') ∧
    h ⊆ h' ∧
    (∀ n c, cs !! n = Some c →
       ∃ a, m !! n = Some (Some a) ∧ h' !! a = Some (Style_FromChroma c)) ∧
    (∀ n, cs !! n = None → m !! n = entries hs !! n).
Proof.
  destruct (FromChroma_fold (range cs)
              (match hs with Some m => m | None => ∅ end) h
              (range_NoDup_fst cs))
    as (m & h' & Hfold & Hsub & Hin & Hout).
  exists m, h'. unfold FromChroma. cbv zeta in *. rewrite Hfold.
  split; [done|]. split; [done|]. split.
  - intros n c Hc. apply Hin.
    rewrite range_Permutation. by apply elem_of_map_to_list.
  - intros n Hn. rewrite Hout.
    + by destruct hs.
    + rewrite range_fst_elem_of, Hn. by intros [? ?].
Qed.

(** ** Decoding a document *)

(** A mismatch once saved is reported at the end. *)
Lemma decodeMembers_saved (kvs : list (string * jvalue))
    (m : gmap string ptr) (h : gmap loc Style) (e0 : error) :
  is_Some ((decodeMembers kvs m h (Some e0)).2).
Proof.
  revert m h e0. induction kvs as [|[k [|d]] kvs IH]; intros m h e0; simpl.
  - by eexists.
  - apply IH.
  - destruct (decodeStyle d); [apply IH|apply IH|by eexists].
Qed.

Lemma members_by_name_cons (k : string) (v : jvalue)
    (kvs : list (string * jvalue)) (n : string) (w : jvalue) :
  members_by_name ((k, v) :: kvs) !! n = Some w →
  members_by_name kvs !! n = Some w ∨ ((n ∉ kvs.*1) ∧ n = k ∧ w = v).
Proof.
  unfold members_by_name. rewrite reverse_cons, list_to_map_app. simpl.
  rewrite insert_empty, lookup_union_Some_raw.
  intros [Hl|[Hn Hs]]; [by left|right].
  apply lookup_singleton_Some in Hs as [-> ->]. split; [|done].
  apply not_elem_of_list_to_map in Hn.
  by rewrite fmap_reverse, elem_of_reverse in Hn.
Qed.

(** The members are stored one by one: the heap only grows, names the
    document lacks keep their entry, and when no error comes back every
    name of the document is bound to what its last member decodes to. *)
Lemma decodeMembers_spec (kvs : list (string * jvalue))
    (m m' : gmap string ptr) (h h' : gmap loc Style)
    (saved e : option error) :
  decodeMembers kvs m h saved = (m', h', e) →
  h ⊆ h' ∧
  (∀ n, n ∉ kvs.*1 → m' !! n = m !! n) ∧
  (e = None →
   ∀ n v, members_by_name kvs !! n = Some v →
          ∃ p, m' !! n = Some p ∧ member_style v = Some (deref h' p)).
Proof.
  revert m h saved.
  induction kvs as [|[k v] kvs IH]; intros m h saved Hdec.
  - simpl in Hdec. simplify_eq. split; [done|]. split; [done|].
    intros _ n v. unfold members_by_name. simpl. by rewrite lookup_empty.
  - destruct v as [|d]; simpl in Hdec.
    + apply IH in Hdec as (Hsub & Hout & Hin).
      split; [done|]. split.
      * intros n [Hne Hn]%not_elem_of_cons.
        rewrite Hout by done. by rewrite lookup_insert_ne.
      * intros He n w [Hw|(Hn & -> & ->)]%members_by_name_cons.
        -- by apply Hin.
        -- exists None. rewrite Hout by done.
           by rewrite lookup_insert_eq.
    + destruct (decodeStyle d) as [s|s|] eqn:Hd.
      * apply IH in Hdec as (Hsub & Hout & Hin).
        split; [by etrans; [apply alloc_subseteq|]|]. split.
        -- intros n [Hne Hn]%not_elem_of_cons.
           rewrite Hout by done. by rewrite lookup_insert_ne.
        -- intros He n w [Hw|(Hn & -> & ->)]%members_by_name_cons.
           ++ by apply Hin.
           ++ exists (Some (fresh (dom h))). rewrite Hout by done.
              rewrite lookup_insert_eq. split; [done|].
              simpl. rewrite Hd. f_equal. symmetry.
              eapply lookup_weaken; [|done]. apply lookup_insert_eq.
      * pose proof (decodeMembers_saved kvs
                      (<[k := Some (fresh (dom h))]> m)
                      (<[fresh (dom h) := s]> h)
                      (default UnmarshalTypeError saved)) as Hs.
        rewrite Hdec in Hs. simpl in Hs.
        apply IH in Hdec as (Hsub & Hout & Hin).
        split; [by etrans; [apply alloc_subseteq|]|]. split.
        -- intros n [Hne Hn]%not_elem_of_cons.
           rewrite Hout by done. by rewrite lookup_insert_ne.
        -- intros ->. by destruct Hs.
      * simplify_eq. split; [done|]. split; [done|]. done.
Qed.


(** When [OpenJSON] leaves the receiver nil. *)
Lemma OpenJSON_nil_iff (hs : Styles) (filename : string)
    (h : gmap loc Style) (fs : filesys) :
  (OpenJSON hs filename h fs).1.1 = None ↔
  ReadFile fs filename = Some (Text JTopNull) ∨
  (hs = None ∧ ∀ kvs, ReadFile fs filename ≠ Some (Text (JObject kvs))).
Proof.
  unfold OpenJSON.
  destruct (ReadFile fs filename) as [[|[|kvs|]]|]; simpl.
  - split; [by right|by intros [?|[? _]]].
  - split; [by left|done].
  - destruct (decodeMembers kvs _ h None) as [[m1 h1] e1]. simpl.
    split; [done|]. intros [?|[_ Hno]]; [done|]. by destruct (Hno kvs).
  - split; [by right|by intros [?|[? _]]].
  - split; [by right|by intros [?|[? _]]].
Qed.

(** [OpenJSON] only adds to the heap. *)
Lemma OpenJSON_heap (hs hs' : Styles) (filename : string)
    (h h' : gmap loc Style) (fs : filesys) (e : option error) :
  OpenJSON hs filename h fs = (hs', h', e) → h ⊆ h'.
Proof.
  unfold OpenJSON. destruct (ReadFile fs filename) as [[|[|kvs|]]|]; simpl;
    try (intros; by simplify_eq).
  destruct (decodeMembers kvs _ h None) as [[m1 h1] e1] eqn:Hdec.
  intros; simplify_eq. by apply decodeMembers_spec in Hdec as (? & _).
Qed.

(** ** Initialisation *)

Lemma Init_std_spec (st : state) :
  ∃ m h1,
    Init_std st
    = mkState h1 (Some m) (CustomStyles st) (AvailStyles st)
              (StyleDefault st) (StyleNames st) (StylesChanged st) (disk st) ∧
    heap st ⊆ h1 ∧
    (∀ n c, styles_Registry !! n = Some c →
       ∃ a, m !! n = Some (Some a) ∧ h1 !! a = Some (Style_FromChroma c)).
Proof.
  unfold Init_std.
  destruct (FromChroma_spec (StdStyles st) styles_Registry (heap st))
    as (m & h1 & -> & Hsub & Hin & _).
  by exists m, h1.
Qed.

Lemma Init_load_spec (st : state) :
  ∃ m h1 c h2 e,
    Init_load st
    = mkState h2 (Some m) c (AvailStyles st)
              (StyleDefault st) (StyleNames st) false (disk st) ∧
    OpenPrefs TheCustom (Init_std st) = (Init_load st, e) ∧
    OpenJSON (CustomStyles st) prefsPath h1 (disk st) = (c, h2, e) ∧
    h1 ⊆ h2 ∧
    (∀ n c, styles_Registry !! n = Some c →
       ∃ a, m !! n = Some (Some a) ∧ h1 !! a = Some (Style_FromChroma c)).
Proof.
  unfold Init_load. destruct (Init_std_spec st) as (m & h1 & -> & _ & Hreg).
  unfold OpenPrefs. simpl.
  destruct (OpenJSON (CustomStyles st) prefsPath h1 (disk st))
    as [[c h2] e] eqn:Hopen.
  exists m, h1, c, h2, e. simpl.
  split; [done|]. split; [done|]. split; [done|]. split; [|done].
  by eapply OpenJSON_heap.
Qed.

(** [Init] returns whenever the load leaves [CustomStyles] allocated and
    the default style is one of the registry: either the load left
    custom styles and they are merged as they are, or it left none and
    a copy of the default style is added first. *)
Lemma Init_cases (st : state) :
  is_Some (styles_Registry !! StyleDefault st) →
  CustomStyles (Init_load st) ≠ None →
  (len (CustomStyles (Init_load st)) ≠ 0 ∧
   Init st = Ok (MergeAvailStyles (Init_load st))) ∨
  (∃ s, CustomStyles (Init_load st) = Some ∅ ∧
        deref (heap (Init_load st))
              (index (StdStyles (Init_load st)) (StyleDefault st)) = Some s ∧
        Init st
        = Ok (MergeAvailStyles
                (store TheCustom
                   (Some {["custom-sample"
                           := Some (fresh (dom (heap (Init_load st))))]})
                   (set_heap (<[fresh (dom (heap (Init_load st))) := s]>
                                (heap (Init_load st)))
                             (Init_load st))))).
Proof.
  intros [c0 Hdef] Hnil. unfold Init.
  destruct (Init_load_spec st) as (m & h1 & c & h2 & e & Hst & _ & _ & Hsub & Hreg).
  rewrite Hst in *. simpl in *.
  destruct (decide (len c = 0)) as [Hlen|Hlen]; [right|by left].
  destruct c as [mc|]; [|done].
  apply map_size_empty_iff in Hlen. simpl in Hlen. subst mc.
  destruct (Hreg _ _ Hdef) as (a & Ha & Hh).
  exists (Style_FromChroma c0). unfold index. simpl. rewrite Ha. simpl.
  rewrite (lookup_weaken _ _ _ _ Hh Hsub). simpl.
  by rewrite insert_empty.
Qed.


(** Whatever [Init] returns comes out of [MergeAvailStyles], run on a
    state whose [StylesChanged] the load has cleared. *)
Lemma Init_Ok_merged (st st' : state) :
  Init st = Ok st' →
  ∃ st2, st' = MergeAvailStyles st2 ∧ StylesChanged st2 = false.
Proof.
  unfold Init.
  destruct (Init_load_spec st) as (m & h1 & c & h2 & e & -> & _). simpl.
  destruct (decide (len c = 0)).
  - destruct (Style_CopyFrom _) as [v|]; [|done].
    destruct c as [mc|]; [|done].
    intros; simplify_eq. by eexists.
  - intros; simplify_eq. by eexists.
Qed.




(** ** Lookup *)

(** C2. [AvailStyle] returns the entry stored under the name when
    [AvailStyles] has the name, and the entry stored under
    [StyleDefault] when it has not; in either case the entry is read
    from [AvailStyles] as it stands when the call returns. *)
Theorem AvailStyle_entry_or_default (nm : string) (st : state) :
  (∀ m p, AvailStyles st = Some m → m !! nm = Some p →
          AvailStyle nm st = Ok (p, st)) ∧
  (∀ m, AvailStyles st = Some m → m !! nm = None →
        AvailStyle nm st = Ok (index (AvailStyles st) (StyleDefault st), st)) ∧
  (∀ p st', AvailStyle nm st = Ok (p, st') →
     (∀ q, entries (AvailStyles st') !! nm = Some q → p = q) ∧
     (entries (AvailStyles st') !! nm = None →
      p = index (AvailStyles st') (StyleDefault st'))).
Proof.
  split; [|split].
  - intros m p Hm Hp. unfold AvailStyle. rewrite Hm.
    change (entries (AvailStyles st)) with (default ∅ (AvailStyles st)).
    rewrite Hm. simpl. by rewrite Hp.
  - intros m Hm Hp. unfold AvailStyle. rewrite Hm.
    change (entries (AvailStyles st)) with (default ∅ (AvailStyles st)).
    rewrite Hm. simpl. by rewrite Hp.
  - intros p st' Hcall. unfold AvailStyle in Hcall.
    destruct (match AvailStyles st with Some _ => Ok st | None => Init st end)
      as [st1|]; [|done].
    destruct (entries (AvailStyles st1) !! nm) as [q|] eqn:Hq;
      simplify_eq; rewrite Hq; split; intros; by simplify_eq.
Qed.


(** ** Seeding the custom styles *)



(** ** The changed flag *)

(** C9. [StylesChanged] is false in the state [Init] returns, after
    [OpenPrefs] and after [SavePrefs], whatever they return.
    [SavePrefs] runs [MergeAvailStyles] first and then saves the
    receiver as it stands after the merge; called on [CustomStyles] it
    saves the custom styles, with [AvailStyles] and [StyleNames]
    already recomputed. *)
Theorem StylesChanged_cleared (hs : stylesvar) (st : state) :
  (∀ st', Init st = Ok st' → StylesChanged st' = false) ∧
  StylesChanged (OpenPrefs hs st).1 = false ∧
  StylesChanged (SavePrefs hs st).1 = false ∧
  AvailStyles (SavePrefs hs st).1 = AvailStyles (MergeAvailStyles st) ∧
  StyleNames (SavePrefs hs st).1 = StyleNames (MergeAvailStyles st) ∧
  SavePrefs hs st
  = (let merged := MergeAvailStyles (set_StylesChanged false st) in
     let saved := SaveJSON (load hs merged) prefsPath (heap st) (disk st) in
     (set_disk saved.1 merged, saved.2)) ∧
  load TheCustom (MergeAvailStyles (set_StylesChanged false st))
  = CustomStyles st.
Proof.
  split; [|split; [|split; [|split; [|split; [|split]]]]].
  - by intros st' (st2 & -> & Hch)%Init_Ok_merged.
  - unfold OpenPrefs.
    destruct (OpenJSON _ _ _ _) as [[v h] err]. by destruct hs.
  - unfold SavePrefs. by destruct (SaveJSON _ _ _ _).
  - unfold SavePrefs. by destruct (SaveJSON _ _ _ _).
  - unfold SavePrefs. by destruct (SaveJSON _ _ _ _).
  - unfold SavePrefs. simpl. by destruct (SaveJSON _ _ _ _).
  - done.
Qed.

(** ** Loading and saving *)




Lemma valid_insert_nil (h : gmap loc Style) (m : gmap string ptr)
    (k : string) :
  valid h m → valid h (<[k := None]> m).
Proof.
  intros Hv n a. rewrite lookup_insert. case_decide; [done|]. apply Hv.
Qed.

Lemma valid_insert_alloc (h : gmap loc Style) (m : gmap string ptr)
    (k : string) (s : Style) :
  valid h m →
  valid (<[fresh (dom h) := s]> h) (<[k := Some (fresh (dom h))]> m).
Proof.
  intros Hv n a. rewrite lookup_insert. case_decide.
  - intros; simplify_eq. rewrite lookup_insert_eq. by eexists.
  - intros [s' Hs']%Hv. exists s'.
    eapply lookup_weaken; [done|apply alloc_subseteq].
Qed.







Lemma len_0_entries (hs : Styles) : len hs = 0 → entries hs = ∅.
Proof. unfold len. apply map_size_empty_iff. Qed.


(** * Further properties of the collections *)

(** ** [FromChroma] *)

(** The addresses [FromChroma] hands out: each is new to the heap it
    started from, and no two names get the same one. *)
Lemma FromChroma_fold_fresh (l : list (string * ChromaStyle))
    (m0 m : gmap string ptr) (h0 h : gmap loc Style) :
  NoDup l.*1 →
  foldl (λ '(m, h) '(nm, cse),
           let hse := fresh (dom h) in
           (<[nm := Some hse]> m, <[hse := Style_FromChroma cse]> h))
        (m0, h0) l = (m, h) →
  h0 ⊆ h ∧
  (∀ n, n ∉ l.*1 → m !! n = m0 !! n) ∧
  (∀ n, n ∈ l.*1 → ∃ a, m !! n = Some (Some a) ∧ h0 !! a = None) ∧
  (∀ n1 n2 a, n1 ∈ l.*1 → n2 ∈ l.*1 →
     m !! n1 = Some (Some a) → m !! n2 = Some (Some a) → n1 = n2).
Proof.
  revert m0 h0. induction l as [|[k c] l IH]; intros m0 h0 Hnd Hfold.
  - simpl in Hfold. simplify_eq. split; [done|]. split; [done|].
    split.
    + intros n Hn. by apply elem_of_nil in Hn.
    + intros n1 n2 a Hn. by apply elem_of_nil in Hn.
  - simpl in Hnd, Hfold. apply NoDup_cons in Hnd as [Hk Hnd].
    destruct (IH _ _ Hnd Hfold) as (Hsub & Hout & Hnew & Hinj).
    assert (h0 ⊆ h) as Hsub0 by (etrans; [apply alloc_subseteq|done]).
    assert (m !! k = Some (Some (fresh (dom h0)))) as Hmk
      by (rewrite Hout by done; apply lookup_insert_eq).
    assert (∀ n a, n ∈ l.*1 → m !! n = Some (Some a) → a ≠ fresh (dom h0))
      as Hne.
    { intros n a Hn Ha ->. destruct (Hnew n Hn) as (a' & Ha' & Hfresh).
      rewrite Ha in Ha'. simplify_eq. by rewrite lookup_insert_eq in Hfresh. }
    split; [done|]. split; [|split].
    + intros n [Hnk Hn]%not_elem_of_cons.
      rewrite Hout by done. by rewrite lookup_insert_ne.
    + intros n [->|Hn]%elem_of_cons.
      * exists (fresh (dom h0)). split; [done|apply fresh_heap].
      * destruct (Hnew n Hn) as (a & Ha & Hfresh). exists a. split; [done|].
        destruct (h0 !! a) as [s|] eqn:Hs; [|done].
        eapply lookup_weaken in Hs;
          [|apply (alloc_subseteq h0 (Style_FromChroma c))].
        congruence.
    + simpl. intros n1 n2 a [->|Hn1]%elem_of_cons [->|Hn2]%elem_of_cons H1 H2.
      * done.
      * rewrite Hmk in H1. simplify_eq. by destruct (Hne n2 _ Hn2 H2).
      * rewrite Hmk in H2. simplify_eq. by destruct (Hne n1 _ Hn1 H1).
      * by eapply Hinj.
Qed.

(** X1. [FromChroma] returns an allocated collection in which every
    name of [cs] is bound to a style converted from the one [cs] has
    for it, and every other name keeps the entry the receiver had: the
    receiver is added to, never cleared. The styles already in the heap
    stay as they are. *)
Theorem FromChroma_converts (hs : Styles) (cs : gmap string ChromaStyle)
    (h : gmap loc Style) :
  (FromChroma hs cs h).1 ≠ None ∧
  h ⊆ (FromChroma hs cs h).2 ∧
  (∀ n c, cs !! n = Some c →
     deref (FromChroma hs cs h).2 (index (FromChroma hs cs h).1 n)
     = Some (Style_FromChroma c)) ∧
  (∀ n, cs !! n = None →
     entries (FromChroma hs cs h).1 !! n = entries hs !! n) ∧
  dom (entries (FromChroma hs cs h).1) = dom cs ∪ dom (entries hs).
Proof.
  destruct (FromChroma_spec hs cs h) as (m & h' & -> & Hsub & Hin & Hout).
  simpl. split; [done|]. split; [done|]. split; [|split]; [| done |].
  - intros n c Hc. destruct (Hin n c Hc) as (a & Ha & Hs).
    unfold index. simpl. by rewrite Ha.
  - apply set_eq. intros n. rewrite elem_of_union, !elem_of_dom.
    destruct (cs !! n) as [c|] eqn:Hc.
    + destruct (Hin n c Hc) as (a & Ha & _). rewrite Ha.
      split; [|by eexists]. intros _. left. by eexists.
    + rewrite (Hout n Hc). split; [by right|].
      intros [[? ?]|?]; done.
Qed.

(** X2. The styles [FromChroma] stores are new ones: a name of [cs] is
    bound to an address the heap did not hold before, and two names of
    [cs] are never bound to the same address. *)
Theorem FromChroma_allocates (hs : Styles) (cs : gmap string ChromaStyle)
    (h : gmap loc Style) :
  (∀ n, is_Some (cs !! n) →
     ∃ a, entries (FromChroma hs cs h).1 !! n = Some (Some a) ∧
          h !! a = None) ∧
  (∀ n1 n2 a, is_Some (cs !! n1) → is_Some (cs !! n2) →
     entries (FromChroma hs cs h).1 !! n1 = Some (Some a) →
     entries (FromChroma hs cs h).1 !! n2 = Some (Some a) →
     n1 = n2).
Proof.
  unfold FromChroma. cbv zeta.
  destruct (foldl _ _ (range cs)) as [m h'] eqn:Hfold.
  apply FromChroma_fold_fresh in Hfold as (_ & _ & Hnew & Hinj);
    [|apply range_NoDup_fst].
  simpl. split.
  - intros n Hn. apply Hnew. by apply range_fst_elem_of.
  - intros n1 n2 a H1 H2. apply Hinj; by apply range_fst_elem_of.
Qed.

(** ** [CopyFrom] *)

(** X3. [CopyFrom] returns an allocated collection that binds every
    name of [os] to the very entry [os] has for it and leaves the
    other names of the receiver as they were; it holds the names of
    both and no other. *)
Theorem CopyFrom_adds_entries (hs os : Styles) :
  CopyFrom hs os ≠ None ∧
  (∀ n p, entries os !! n = Some p →
     entries (CopyFrom hs os) !! n = Some p) ∧
  (∀ n, entries os !! n = None →
     entries (CopyFrom hs os) !! n = entries hs !! n) ∧
  dom (entries (CopyFrom hs os)) = dom (entries os) ∪ dom (entries hs).
Proof.
  rewrite CopyFrom_union. simpl. split; [done|]. split; [|split].
  - intros n p Hn. by apply lookup_union_Some_l.
  - intros n Hn. by apply lookup_union_r.
  - apply dom_union_L.
Qed.

(** X4. Copies compose: after a copy from [a] and then one from [b]
    the entries are those of [b], else those of [a], else those of the
    receiver. Copying the same source again changes nothing, and a
    source without entries leaves the entries of the receiver alone. *)
Theorem CopyFrom_twice (hs a b : Styles) :
  entries (CopyFrom (CopyFrom hs a) b)
  = entries b ∪ (entries a ∪ entries hs) ∧
  CopyFrom (CopyFrom hs a) a = CopyFrom hs a ∧
  (len a = 0 → entries (CopyFrom hs a) = entries hs).
Proof.
  rewrite !CopyFrom_union. simpl. split; [done|]. split.
  - by rewrite (assoc_L (∪)), (idemp_L (∪)).
  - intros ->%len_0_entries. by rewrite (left_id_L ∅ (∪)).
Qed.

(** ** [Names] *)

(** X5. [Names] returns as many names as the collection has entries,
    each name of the collection once and nothing else; for a nil or
    empty collection it returns the empty slice. *)
Theorem Names_lists_every_name (hs : Styles) :
  length (Names hs) = len hs ∧
  NoDup (Names hs) ∧
  (∀ n, n ∈ Names hs ↔ is_Some (entries hs !! n)) ∧
  (len hs = 0 → Names hs = []).
Proof.
  rewrite Names_range. split; [|split; [|split]].
  - by rewrite length_fmap, range_length.
  - apply range_NoDup_fst.
  - intros n. apply range_fst_elem_of.
  - intros Hlen. apply length_zero_iff_nil.
    by rewrite length_fmap, range_length.
Qed.

(** ** [MergeAvailStyles] and [AvailStyle] *)

Lemma size_union_bounds {V} (m1 m2 : gmap string V) :
  (size m1 ≤ size (m1 ∪ m2))%nat ∧ (size m2 ≤ size (m1 ∪ m2))%nat ∧
  (size (m1 ∪ m2) ≤ size m1 + size m2)%nat.
Proof.
  rewrite <-!(size_dom (D := gset string)), dom_union_L. split; [|split].
  - apply subseteq_size, union_subseteq_l.
  - apply subseteq_size, union_subseteq_r.
  - rewrite size_union_alt. apply Nat.add_le_mono_l, subseteq_size.
    by intros x [? _]%elem_of_difference.
Qed.

(** With [AvailStyles] set, a lookup is the search alone. *)
Lemma AvailStyle_when_set (nm : string) (st : state) :
  AvailStyles st ≠ None → AvailStyle nm st = Ok (fallback st nm, st).
Proof.
  intros Hset. unfold AvailStyle, fallback.
  destruct (AvailStyles st) as [m|] eqn:Hm; [|done].
  rewrite Hm. by destruct (entries (Some m) !! nm).
Qed.

(** X6. [MergeAvailStyles] leaves [AvailStyles] allocated, also when
    both sources are nil, with the names of [StdStyles] and of
    [CustomStyles] and no other; each entry is the entry of
    [CustomStyles] under that name, or the one of [StdStyles] where
    [CustomStyles] has none: the same pointers, no copies. So
    [AvailStyles] has at least as many entries as either source and at
    most as many as both together. *)
Theorem MergeAvailStyles_holds_the_sources (st : state) :
  AvailStyles (MergeAvailStyles st) ≠ None ∧
  dom (entries (AvailStyles (MergeAvailStyles st)))
  = dom (entries (StdStyles st)) ∪ dom (entries (CustomStyles st)) ∧
  (∀ n p, entries (AvailStyles (MergeAvailStyles st)) !! n = Some p →
     entries (CustomStyles st) !! n = Some p ∨
     (entries (CustomStyles st) !! n = None ∧
      entries (StdStyles st) !! n = Some p)) ∧
  (len (StdStyles st) ≤ len (AvailStyles (MergeAvailStyles st)))%nat ∧
  (len (CustomStyles st) ≤ len (AvailStyles (MergeAvailStyles st)))%nat ∧
  (len (AvailStyles (MergeAvailStyles st))
   ≤ len (StdStyles st) + len (CustomStyles st))%nat.
Proof.
  rewrite MergeAvailStyles_Avail. unfold len. simpl.
  destruct (size_union_bounds (entries (CustomStyles st))
              (entries (StdStyles st))) as (Hc & Hs & Hsum).
  split; [done|]. split; [|split; [|split; [|split]]]; [| |done|done|lia].
  - by rewrite dom_union_L, (comm_L (∪)).
  - intros n p. by rewrite lookup_union_Some_raw.
Qed.

(** X7. A lookup after [MergeAvailStyles] makes no call of [Init],
    cannot fail and leaves the state alone. It returns the custom
    entry under the name, else the standard one, else what the same
    search gives for [StyleDefault], else nil. *)
Theorem AvailStyle_after_merge (nm : string) (st : state) :
  AvailStyle nm (MergeAvailStyles st)
  = Ok (match entries (CustomStyles st) !! nm with
        | Some p => p
        | None =>
            match entries (StdStyles st) !! nm with
            | Some p => p
            | None =>
                match entries (CustomStyles st) !! StyleDefault st with
                | Some p => p
                | None => index (StdStyles st) (StyleDefault st)
                end
            end
        end, MergeAvailStyles st).
Proof.
  rewrite AvailStyle_when_set by (by rewrite MergeAvailStyles_Avail).
  f_equal. f_equal. unfold fallback, index.
  rewrite MergeAvailStyles_Avail. simpl. rewrite !lookup_union.
  destruct (entries (CustomStyles st) !! nm) as [p|],
    (entries (StdStyles st) !! nm) as [q|]; simpl; try done.
  destruct (entries (CustomStyles st) !! StyleDefault st) as [p|],
    (entries (StdStyles st) !! StyleDefault st) as [q|]; done.
Qed.

(** X8. Once a lookup has returned, [AvailStyles] is set, so every
    later lookup in the state it returned makes no call of [Init],
    cannot fail and changes nothing. *)
Theorem AvailStyle_initialises_once (nm nm' : string) (st st' : state)
    (p : ptr) :
  AvailStyle nm st = Ok (p, st') →
  AvailStyles st' ≠ None ∧
  AvailStyle nm' st' = Ok (fallback st' nm', st').
Proof.
  intros Hcall.
  assert (AvailStyles st' ≠ None) as Hset.
  { unfold AvailStyle in Hcall.
    destruct (AvailStyles st) as [m|] eqn:Hm.
    - destruct (entries (AvailStyles st) !! nm); simplify_eq;
        by rewrite Hm.
    - destruct (Init st) as [st1|] eqn:HInit; [|done].
      apply Init_Ok_merged in HInit as (st2 & -> & _).
      destruct (entries _ !! nm); simplify_eq;
        by rewrite MergeAvailStyles_Avail. }
  split; [done|]. by apply AvailStyle_when_set.
Qed.

(** * Further properties of loading and saving *)

(** ** [OpenJSON] *)

Lemma decodeMembers_no_error (kvs : list (string * jvalue))
    (m : gmap string ptr) (h : gmap loc Style) (saved : option error) :
  (decodeMembers kvs m h saved).2 = None ↔
  saved = None ∧ Forall (λ kv, is_Some (member_style kv.2)) kvs.
Proof.
  revert m h saved.
  induction kvs as [|[k [|d]] kvs IH]; intros m h saved; simpl.
  - split; [by intros ->|by intros [-> _]].
  - rewrite IH, Forall_cons. simpl. split; [|by intros (-> & _ & ?)].
    intros [-> ?]. split; [done|]. split; [by eexists|done].
  - rewrite Forall_cons. simpl. destruct (decodeStyle d) as [s|s|] eqn:Hd.
    + rewrite IH. split; [|by intros (-> & _ & ?)].
      intros [-> ?]. split; [done|]. split; [by eexists|done].
    + split.
      * intros Hnone.
        pose proof (decodeMembers_saved kvs
                      (<[k := Some (fresh (dom h))]> m)
                      (<[fresh (dom h) := s]> h)
                      (default UnmarshalTypeError saved)) as Hs.
        rewrite Hnone in Hs. by destruct Hs.
      * by intros (_ & [? ?] & _).
    + split; [done|]. by intros (_ & [? ?] & _).
Qed.

(** X9. [OpenJSON] returns no error exactly when the file can be read
    and holds either the text [null] or an object whose members are
    all [null] or style documents that decode. *)
Theorem OpenJSON_succeeds_iff (hs : Styles) (filename : string)
    (h : gmap loc Style) (fs : filesys) :
  (OpenJSON hs filename h fs).2 = None ↔
  ReadFile fs filename = Some (Text JTopNull) ∨
  ∃ kvs, ReadFile fs filename = Some (Text (JObject kvs)) ∧
         Forall (λ kv, is_Some (member_style kv.2)) kvs.
Proof.
  unfold OpenJSON.
  destruct (ReadFile fs filename) as [[|[|kvs|]]|]; simpl.
  - split; [done|]. intros [?|(? & ? & _)]; done.
  - split; [by left|done].
  - pose proof (decodeMembers_no_error kvs
                  (match hs with Some m => m | None => ∅ end) h None) as Hiff.
    destruct (decodeMembers kvs _ h None) as [[m1 h1] e1]. simpl in *.
    rewrite Hiff. split.
    + intros [_ Hall]. right. by exists kvs.
    + intros [?|(kvs' & Heq & Hall)]; [done|]. by simplify_eq.
  - split; [done|]. intros [?|(? & ? & _)]; done.
  - split; [done|]. intros [?|(? & ? & _)]; done.
Qed.

(** What decoding leaves under a name: the entry that was there, nil,
    or a style at an address new to the heap. *)
Lemma decodeMembers_entries (kvs : list (string * jvalue))
    (m m' : gmap string ptr) (h h' : gmap loc Style)
    (saved e : option error) :
  decodeMembers kvs m h saved = (m', h', e) →
  ∀ n a, m' !! n = Some (Some a) →
         m !! n = Some (Some a) ∨ (h !! a = None ∧ is_Some (h' !! a)).
Proof.
  revert m h saved.
  induction kvs as [|[k [|d]] kvs IH]; intros m h saved Hdec n a Hn;
    simpl in Hdec.
  - simplify_eq. by left.
  - destruct (IH _ _ _ Hdec n a Hn) as [Hold|?]; [|by right].
    rewrite lookup_insert in Hold. case_decide; [done|by left].
  - assert (∀ s, decodeMembers kvs (<[k := Some (fresh (dom h))]> m)
                   (<[fresh (dom h) := s]> h) saved = (m', h', e) ∨
                 decodeMembers kvs (<[k := Some (fresh (dom h))]> m)
                   (<[fresh (dom h) := s]> h)
                   (Some (default UnmarshalTypeError saved)) = (m', h', e) →
                 m !! n = Some (Some a) ∨
                 (h !! a = None ∧ is_Some (h' !! a))) as Hstep.
    { intros s Hrun.
      assert (<[fresh (dom h) := s]> h ⊆ h') as Hsub
        by (destruct Hrun as [Hrun|Hrun];
            by apply decodeMembers_spec in Hrun as (? & _)).
      assert (<[k := Some (fresh (dom h))]> m !! n = Some (Some a) ∨
              (<[fresh (dom h) := s]> h !! a = None ∧ is_Some (h' !! a)))
        as [Hold|[Hnew Hin]]
        by (destruct Hrun as [Hrun|Hrun]; by eapply IH).
      - rewrite lookup_insert in Hold. case_decide; [|by left].
        simplify_eq. right. split; [apply fresh_heap|].
        exists s. eapply lookup_weaken; [apply lookup_insert_eq|done].
      - right. split; [|done].
        destruct (h !! a) as [s'|] eqn:Hs'; [|done].
        eapply lookup_weaken in Hs'; [|apply (alloc_subseteq h s)].
        congruence. }
    destruct (decodeStyle d) as [s|s|].
    + apply (Hstep s). by left.
    + apply (Hstep s). by right.
    + simplify_eq. by left.
Qed.

(** Two names never come to share a style that decoding allocated. *)
Lemma decodeMembers_distinct (kvs : list (string * jvalue))
    (m m' : gmap string ptr) (h h' : gmap loc Style)
    (saved e : option error) :
  valid h m →
  decodeMembers kvs m h saved = (m', h', e) →
  ∀ n1 n2 a, m' !! n1 = Some (Some a) → m' !! n2 = Some (Some a) →
             h !! a = None → n1 = n2.
Proof.
  revert m h saved.
  induction kvs as [|[k [|d]] kvs IH]; intros m h saved Hv Hdec n1 n2 a H1 H2 Ha;
    simpl in Hdec.
  - simplify_eq. destruct (Hv _ _ H1) as [s Hs]. congruence.
  - eapply (IH _ _ _ (valid_insert_nil h m k Hv) Hdec); done.
  - assert (∀ s saved',
              decodeMembers kvs (<[k := Some (fresh (dom h))]> m)
                (<[fresh (dom h) := s]> h) saved' = (m', h', e) →
              n1 = n2) as Hstep.
    { intros s saved' Hrun.
      destruct (decide (a = fresh (dom h))) as [->|Hne].
      - assert (∀ n, m' !! n = Some (Some (fresh (dom h))) → n = k) as Hk.
        { intros n Hn.
          destruct (decodeMembers_entries _ _ _ _ _ _ _ Hrun n _ Hn)
            as [Hold|[Hnew _]].
          - rewrite lookup_insert in Hold. case_decide; [done|].
            destruct (Hv _ _ Hold) as [s' Hs']. congruence.
          - by rewrite lookup_insert_eq in Hnew. }
        by rewrite (Hk n1 H1), (Hk n2 H2).
      - eapply (IH _ _ _ (valid_insert_alloc h m k s Hv) Hrun); [done..|].
        by rewrite lookup_insert_ne. }
    destruct (decodeStyle d) as [s|s|].
    + by eapply Hstep.
    + by eapply Hstep.
    + simplify_eq. destruct (Hv _ _ H1) as [s Hs]. congruence.
Qed.

(** X10. [OpenJSON] shares no style: whatever it returns, the styles
    of the heap stay as they were, and a pointer found in the receiver
    afterwards is either the one that was there before under that name
    or the address of a new style; where the receiver held no dangling
    pointer, two names never share such a new style. *)
Theorem OpenJSON_allocates (hs : Styles) (filename : string)
    (h : gmap loc Style) (fs : filesys) :
  h ⊆ (OpenJSON hs filename h fs).1.2 ∧
  (∀ n a, entries (OpenJSON hs filename h fs).1.1 !! n = Some (Some a) →
     entries hs !! n = Some (Some a) ∨
     (h !! a = None ∧ is_Some ((OpenJSON hs filename h fs).1.2 !! a))) ∧
  (valid h (entries hs) →
   ∀ n1 n2 a,
     entries (OpenJSON hs filename h fs).1.1 !! n1 = Some (Some a) →
     entries (OpenJSON hs filename h fs).1.1 !! n2 = Some (Some a) →
     h !! a = None → n1 = n2).
Proof.
  destruct (OpenJSON hs filename h fs) as [[hs' h'] e] eqn:Hopen. simpl.
  split; [by eapply OpenJSON_heap|].
  unfold OpenJSON in Hopen.
  destruct (ReadFile fs filename) as [[|[|kvs|]]|]; simpl in Hopen;
    try (simplify_eq; split;
         [intros n a Hn; by left
         |intros Hv n1 n2 a H1 _ Ha; destruct (Hv _ _ H1) as [? ?];
          congruence]).
  - simplify_eq. split; [done|]. intros _ n1 n2 a Hn. simpl in Hn.
    by rewrite lookup_empty in Hn.
  - destruct (decodeMembers kvs _ h None) as [[m1 h1] e1] eqn:Hdec.
    simplify_eq. simpl.
    replace (match hs with Some m => m | None => ∅ end)
      with (entries hs) in Hdec by (by destruct hs).
    split.
    + by eapply decodeMembers_entries.
    + intros Hv. by eapply decodeMembers_distinct.
Qed.

(** ** [SaveJSON] *)





(** * Further properties of the preferences and of [Init] *)

(** ** [OpenPrefs] and [SavePrefs] *)

(** X13. [OpenPrefs] does not merge. It changes the receiver, adds to
    the heap and clears [StylesChanged]; the two other collections,
    [StyleNames], [StyleDefault] and the files are left as they were.
    So after the custom styles have been loaded again, [AvailStyles]
    and [StyleNames] are still the ones from before the load. *)
Theorem OpenPrefs_does_not_merge (hs : stylesvar) (st : state) :
  (∀ other, other ≠ hs →
     load other (OpenPrefs hs st).1 = load other st) ∧
  StyleNames (OpenPrefs hs st).1 = StyleNames st ∧
  StyleDefault (OpenPrefs hs st).1 = StyleDefault st ∧
  disk (OpenPrefs hs st).1 = disk st ∧
  heap st ⊆ heap (OpenPrefs hs st).1 ∧
  OpenJSON (load hs st) prefsPath (heap st) (disk st)
  = (load hs (OpenPrefs hs st).1, heap (OpenPrefs hs st).1,
     (OpenPrefs hs st).2).
Proof.
  unfold OpenPrefs.
  replace (load hs (set_StylesChanged false st)) with (load hs st)
    by (by destruct hs).
  simpl.
  destruct (OpenJSON (load hs st) prefsPath (heap st) (disk st))
    as [[v h'] e] eqn:Hopen.
  apply OpenJSON_heap in Hopen.
  split; [|by destruct hs].
  intros other Hne. by destruct hs, other.
Qed.



(** ** [Init] *)

(** What [Init] returns: the merge of what the load left, or of that
    with the sample style added to an empty [CustomStyles]. *)
Lemma Init_Ok_cases (st st' : state) :
  Init st = Ok st' →
  (len (CustomStyles (Init_load st)) ≠ 0 ∧
   st' = MergeAvailStyles (Init_load st)) ∨
  ∃ v, CustomStyles (Init_load st) = Some ∅ ∧
       st' = MergeAvailStyles
               (store TheCustom
                  (Some {["custom-sample"
                          := Some (fresh (dom (heap (Init_load st))))]})
                  (set_heap (<[fresh (dom (heap (Init_load st))) := v]>
                               (heap (Init_load st)))
                            (Init_load st))).
Proof.
  unfold Init. destruct (decide (len (CustomStyles (Init_load st)) = 0))
    as [Hlen|Hlen]; [|intros; simplify_eq; by left].
  destruct (Style_CopyFrom _) as [v|]; [|done].
  destruct (CustomStyles (Init_load st)) as [mc|] eqn:Hc; [|done].
  apply map_size_empty_iff in Hlen. simpl in Hlen. subst mc.
  intros; simplify_eq. right. exists v. by rewrite insert_empty.
Qed.

(** The standard styles after the load are those [FromChroma] made,
    at addresses the heap did not hold when [Init] began. *)
Lemma Init_load_std (st : state) :
  disk (Init_load st) = disk st ∧
  StyleDefault (Init_load st) = StyleDefault st ∧
  heap st ⊆ heap (Init_load st) ∧
  (∀ n c, styles_Registry !! n = Some c →
     ∃ a, entries (StdStyles (Init_load st)) !! n = Some (Some a) ∧
          heap st !! a = None ∧
          heap (Init_load st) !! a = Some (Style_FromChroma c)).
Proof.
  unfold Init_load, Init_std, OpenPrefs.
  pose proof (FromChroma_spec (StdStyles st) styles_Registry (heap st))
    as (m & h1 & Hfrom & Hsub & Hin & _).
  assert (∀ n, is_Some (styles_Registry !! n) →
               ∃ a, m !! n = Some (Some a) ∧ heap st !! a = None) as Hnew.
  { unfold FromChroma in Hfrom. cbv zeta in Hfrom.
    destruct (foldl _ _ (range styles_Registry)) as [m' h'] eqn:Hfold.
    simplify_eq.
    apply FromChroma_fold_fresh in Hfold as (_ & _ & Hnew & _);
      [|apply range_NoDup_fst].
    intros n Hn. apply Hnew. by apply range_fst_elem_of. }
  rewrite Hfrom. simpl.
  destruct (OpenJSON (CustomStyles st) prefsPath h1 (disk st))
    as [[c h2] e] eqn:Hopen.
  apply OpenJSON_heap in Hopen. simpl.
  split; [done|]. split; [done|]. split; [by etrans|].
  intros n c0 Hc0. destruct (Hin n c0 Hc0) as (a & Ha & Hs).
  destruct (Hnew n) as (a' & Ha' & Hfresh); [by eexists|].
  rewrite Ha in Ha'. simplify_eq. exists a'. split; [done|]. split; [done|].
  by eapply lookup_weaken.
Qed.

(** X16. When [Init] returns, every style of the registry is in
    [StdStyles] under its name, converted; it is in [AvailStyles] too
    unless a custom style of that name lies over it; and [AvailStyles]
    has all the names of the registry and of [CustomStyles]. *)
Theorem Init_loads_the_registry (st st' : state) :
  Init st = Ok st' →
  (∀ n c, styles_Registry !! n = Some c →
     deref (heap st') (index (StdStyles st') n)
     = Some (Style_FromChroma c)) ∧
  (∀ n c, styles_Registry !! n = Some c →
     entries (CustomStyles st') !! n = None →
     deref (heap st') (index (AvailStyles st') n)
     = Some (Style_FromChroma c)) ∧
  dom styles_Registry ⊆ dom (entries (AvailStyles st')) ∧
  dom (entries (CustomStyles st')) ⊆ dom (entries (AvailStyles st')).
Proof.
  intros HInit.
  destruct (Init_load_std st) as (_ & _ & _ & Hreg).
  assert (StdStyles st' = StdStyles (Init_load st) ∧
          heap (Init_load st) ⊆ heap st' ∧
          ∃ st2, st' = MergeAvailStyles st2) as (Hstd & Hsub & st2 & Hst2).
  { destruct (Init_Ok_cases st st' HInit) as [[_ ->]|(v & _ & ->)]; simpl.
    - split; [done|]. split; [done|]. by eexists.
    - split; [done|]. split; [apply alloc_subseteq|]. by eexists. }
  assert (∀ n c, styles_Registry !! n = Some c →
            ∃ a, entries (StdStyles st') !! n = Some (Some a) ∧
                 heap st' !! a = Some (Style_FromChroma c)) as Hstd'.
  { intros n c Hc. destruct (Hreg n c Hc) as (a & Ha & _ & Hs).
    exists a. rewrite Hstd. split; [done|]. by eapply lookup_weaken. }
  assert (entries (AvailStyles st')
          = entries (CustomStyles st') ∪ entries (StdStyles st')) as Havail
    by (subst st'; by rewrite MergeAvailStyles_Avail).
  split; [|split; [|split]].
  - intros n c Hc. destruct (Hstd' n c Hc) as (a & Ha & Hs).
    unfold index. by rewrite Ha.
  - intros n c Hc Hnone. destruct (Hstd' n c Hc) as (a & Ha & Hs).
    unfold index. rewrite Havail, lookup_union_r by done. by rewrite Ha.
  - intros n [c Hc]%elem_of_dom. destruct (Hstd' n c Hc) as (a & Ha & _).
    rewrite Havail, dom_union_L, elem_of_union, !elem_of_dom, Ha.
    right. by eexists.
  - rewrite Havail, dom_union_L. apply union_subseteq_l.
Qed.

(** X17. [Init] reads the preferences and never writes them: the
    files, [StyleDefault] and every style already in the heap are as
    before when it returns, and the sample style it adds is in
    [CustomStyles] only. Each name of the registry is bound in
    [StdStyles] to a style allocated by this very call, also where an
    earlier call had bound it. *)
Theorem Init_writes_no_file (st st' : state) :
  Init st = Ok st' →
  disk st' = disk st ∧
  StyleDefault st' = StyleDefault st ∧
  heap st ⊆ heap st' ∧
  (∀ n, is_Some (styles_Registry !! n) →
     ∃ a, entries (StdStyles st') !! n = Some (Some a) ∧
          heap st !! a = None ∧ is_Some (heap st' !! a)).
Proof.
  intros HInit.
  destruct (Init_load_std st) as (Hdisk & Hdef & Hsub & Hreg).
  assert (disk st' = disk (Init_load st) ∧
          StyleDefault st' = StyleDefault (Init_load st) ∧
          StdStyles st' = StdStyles (Init_load st) ∧
          heap (Init_load st) ⊆ heap st') as (-> & -> & -> & Hsub').
  { destruct (Init_Ok_cases st st' HInit) as [[_ ->]|(v & _ & ->)]; simpl.
    - done.
    - split; [done|]. split; [done|]. split; [done|apply alloc_subseteq]. }
  split; [done|]. split; [done|]. split; [by etrans|].
  intros n [c Hc]. destruct (Hreg n c Hc) as (a & Ha & Hfresh & Hs).
  exists a. split; [done|]. split; [done|].
  exists (Style_FromChroma c). by eapply lookup_weaken.
Qed.

(** X18. With a default style that is in the registry, [Init] fails in
    one way only, at the assignment of the sample style to a nil
    [CustomStyles]; and it does so exactly when the preferences file is
    the text [null], or [CustomStyles] was nil already and the
    preferences hold no JSON object. *)
Theorem Init_fails_on_nil_custom (st : state) :
  is_Some (styles_Registry !! StyleDefault st) →
  (Init st = Panic "assignment to entry in nil map" ↔
   ReadFile (disk st) prefsPath = Some (Text JTopNull) ∨
   (CustomStyles st = None ∧
    ∀ kvs, ReadFile (disk st) prefsPath ≠ Some (Text (JObject kvs)))) ∧
  (∀ msg, Init st = Panic msg → msg = "assignment to entry in nil map").
Proof.
  intros Hdef.
  assert (Init st = Panic "assignment to entry in nil map" ↔
          CustomStyles (Init_load st) = None) as Hiff.
  { split.
    - intros Hpanic.
      destruct (CustomStyles (Init_load st)) as [mc|] eqn:Hc; [|done].
      destruct (Init_cases st Hdef) as [[_ HOk]|(s & _ & _ & HOk)];
        [by rewrite Hc|congruence..].
    - intros Hnil. unfold Init. rewrite Hnil. simpl.
      destruct Hdef as [c Hc].
      destruct (Init_load_std st) as (_ & -> & _ & Hreg).
      destruct (Hreg _ _ Hc) as (a & Ha & _ & Hs).
      unfold index. rewrite Ha. simpl. by rewrite Hs. }
  assert (CustomStyles (Init_load st) = None ↔
          ReadFile (disk st) prefsPath = Some (Text JTopNull) ∨
          (CustomStyles st = None ∧
           ∀ kvs, ReadFile (disk st) prefsPath ≠ Some (Text (JObject kvs))))
    as Hnil.
  { destruct (Init_load_spec st)
      as (m & h1 & c & h2 & e & Hst & _ & Hopen & _).
    rewrite Hst. simpl.
    rewrite <-(OpenJSON_nil_iff (CustomStyles st) prefsPath h1 (disk st)).
    by rewrite Hopen. }
  split; [by rewrite Hiff|].
  intros msg Hpanic.
  destruct (decide (CustomStyles (Init_load st) = None)) as [Hc|Hc].
  - apply Hiff in Hc. congruence.
  - destruct (Init_cases st Hdef Hc) as [[_ HOk]|(s & _ & _ & HOk)];
      congruence.
Qed.

(** Decoding an object drops no name. *)
Lemma decodeMembers_dom (kvs : list (string * jvalue))
    (m m' : gmap string ptr) (h h' : gmap loc Style)
    (saved e : option error) :
  decodeMembers kvs m h saved = (m', h', e) → dom m ⊆ dom m'.
Proof.
  revert m h saved.
  induction kvs as [|[k [|d]] kvs IH]; intros m h saved Hdec; simpl in Hdec.
  - by simplify_eq.
  - apply IH in Hdec. etrans; [|done].
    rewrite dom_insert_L. apply union_subseteq_r.
  - destruct (decodeStyle d) as [s|s|].
    + apply IH in Hdec. etrans; [|done].
      rewrite dom_insert_L. apply union_subseteq_r.
    + apply IH in Hdec. etrans; [|done].
      rewrite dom_insert_L. apply union_subseteq_r.
    + by simplify_eq.
Qed.

(** Short of the text [null], [OpenJSON] drops no name of the
    receiver, and it leaves the receiver alone unless the file holds an
    object. *)
Lemma OpenJSON_dom (hs hs' : Styles) (filename : string)
    (h h' : gmap loc Style) (fs : filesys) (e : option error) :
  OpenJSON hs filename h fs = (hs', h', e) →
  ReadFile fs filename ≠ Some (Text JTopNull) →
  dom (entries hs) ⊆ dom (entries hs') ∧
  ((∀ kvs, ReadFile fs filename ≠ Some (Text (JObject kvs))) → hs' = hs).
Proof.
  unfold OpenJSON. intros Hopen Hnull.
  destruct (ReadFile fs filename) as [[|[|kvs|]]|]; simpl in Hopen;
    try (by simplify_eq).
  destruct (decodeMembers kvs _ h None) as [[m1 h1] e1] eqn:Hdec.
  simplify_eq. apply decodeMembers_dom in Hdec. split.
  - by destruct hs.
  - intros Hno. by destruct (Hno kvs).
Qed.

(** X19. [Init] can be run again, and the second call seeds nothing.
    When it has returned once and the preferences file is not the text
    [null], a second call returns as well, with the merge of exactly
    what its load left: [CustomStyles] is what [OpenJSON] of the
    preferences makes of the custom styles the first call returned. So
    [CustomStyles] keeps all its names, every name it has then is one
    it had or one of the preferences file, and it is left as it was
    where the preferences hold no JSON object. *)
Theorem Init_again (st st' : state) :
  Init st = Ok st' →
  ReadFile (disk st) prefsPath ≠ Some (Text JTopNull) →
  Init st' = Ok (MergeAvailStyles (Init_load st')) ∧
  CustomStyles (MergeAvailStyles (Init_load st'))
  = (OpenJSON (CustomStyles st') prefsPath (heap (Init_std st'))
       (disk st)).1.1 ∧
  len (CustomStyles (MergeAvailStyles (Init_load st'))) ≠ 0 ∧
  dom (entries (CustomStyles st'))
  ⊆ dom (entries (CustomStyles (MergeAvailStyles (Init_load st')))) ∧
  (∀ n, is_Some (entries (CustomStyles (MergeAvailStyles (Init_load st')))
                   !! n) →
     is_Some (entries (CustomStyles st') !! n) ∨
     ∃ kvs, ReadFile (disk st) prefsPath = Some (Text (JObject kvs)) ∧
            n ∈ kvs.*1) ∧
  ((∀ kvs, ReadFile (disk st) prefsPath ≠ Some (Text (JObject kvs))) →
   CustomStyles (MergeAvailStyles (Init_load st')) = CustomStyles st').
Proof.
  intros HInit Hnull.
  assert (len (CustomStyles st') ≠ 0 ∧ disk st' = disk st) as [Hlen Hdisk].
  { destruct (Init_load_std st) as (Hdisk & _).
    destruct (Init_Ok_cases st st' HInit) as [[Hlen ->]|(v & _ & ->)];
      simpl; [done|].
    split; [|done]. unfold len. simpl. by rewrite map_size_singleton. }
  assert (Init_load st'
          = store TheCustom
              (OpenJSON (CustomStyles st') prefsPath (heap (Init_std st'))
                 (disk st)).1.1
              (set_heap
                 (OpenJSON (CustomStyles st') prefsPath (heap (Init_std st'))
                    (disk st)).1.2
                 (set_StylesChanged false (Init_std st')))) as Hload.
  { unfold Init_load, OpenPrefs.
    destruct (Init_std_spec st') as (m & h1 & Hstd & _).
    rewrite Hstd. simpl. rewrite Hdisk.
    by destruct (OpenJSON (CustomStyles st') prefsPath h1 (disk st))
      as [[c h2] e]. }
  destruct (OpenJSON (CustomStyles st') prefsPath (heap (Init_std st'))
              (disk st)) as [[c h2] e] eqn:Hopen.
  simpl in Hload.
  assert (CustomStyles (Init_load st') = c) as Hc by (by rewrite Hload).
  destruct (OpenJSON_dom _ _ _ _ _ _ _ Hopen Hnull) as [Hdom Hsame].
  assert (len c ≠ 0) as Hlenc.
  { apply subseteq_size in Hdom. rewrite !size_dom in Hdom.
    unfold len in *. lia. }
  simpl. rewrite Hc.
  split; [|split; [done|]; split; [done|]; split; [done|]; split; [|done]].
  - unfold Init. rewrite Hc. by rewrite decide_False.
  - intros n Hn. unfold OpenJSON in Hopen.
    destruct (ReadFile (disk st) prefsPath) as [[|[|kvs|]]|] eqn:Hread;
      simpl in Hopen;
      try (injection Hopen as <- <- <-; by left).
    destruct (decodeMembers kvs _ (heap (Init_std st')) None)
      as [[m1 h1'] e1] eqn:Hdec.
    injection Hopen as <- <- <-.
    destruct (decide (n ∈ kvs.*1)) as [Hin|Hout]; [right; by exists kvs|].
    left. apply decodeMembers_spec in Hdec as (_ & Hkeep & _).
    simpl in Hn. rewrite (Hkeep n Hout) in Hn. by destruct (CustomStyles st').
Qed.

End HiStyles.

(** * The order of the map iteration *)

(** X20. The order in which a map is ranged over does not show in what
    [CopyFrom] returns nor in what [MergeAvailStyles] stores in
    [AvailStyles]; it shows in [StyleNames] alone, which for two orders
    holds the same names arranged differently. *)
Theorem MergeAvailStyles_any_order (Style StyleDoc : Type)
    (order1 order2 : list nat) (st : state Style StyleDoc)
    (hs os : option (gmap string (option positive))) :
  CopyFrom order1 hs os = CopyFrom order2 hs os ∧
  AvailStyles Style StyleDoc (MergeAvailStyles Style StyleDoc order1 st)
  = AvailStyles Style StyleDoc (MergeAvailStyles Style StyleDoc order2 st) ∧
  StyleNames Style StyleDoc (MergeAvailStyles Style StyleDoc order1 st)
  ≡ₚ StyleNames Style StyleDoc (MergeAvailStyles Style StyleDoc order2 st).
Proof.
  split; [by rewrite !CopyFrom_union|].
  split; [by rewrite !MergeAvailStyles_Avail|].
  rewrite !MergeAvailStyles_Names, !MergeAvailStyles_Avail.
  by rewrite !range_Permutation.
Qed.

(** * A sample configuration

    Styles, chroma styles and style documents are numbers; the numbers
    convert, encode and decode to themselves. The registry has two
    styles and the preferences live under [/prefs]. *)

Definition sample_Join (dir name : string) : string := dir +:+ "/" +:+ name.

Definition sample_Registry : gmap string nat :=
  {["emacs" := 1; "monokai" := 2]}.

Definition sample_prefs : string := prefsPath "/prefs" sample_Join.

(** No file at all. *)
Definition sample_disk : filesys nat := mkFS nat ∅ ∅ ∅.

(** The preferences hold one custom style. *)
Definition sample_disk_mine : filesys nat :=
  mkFS nat {[sample_prefs := Text nat (JObject nat [("mine", JDoc nat 5)])]}
       ∅ ∅.

(** The preferences are the JSON text [null]. *)
Definition sample_disk_null : filesys nat :=
  mkFS nat {[sample_prefs := Text nat (JTopNull nat)]} ∅ ∅.

(** The preferences hold a style and, after it, a member that is no
    style document. *)
Definition sample_disk_bad : filesys nat :=
  mkFS nat {[sample_prefs
             := Text nat (JObject nat [("mine", JDoc nat 5);
                                       ("broken", JDoc nat 0)])]}
       ∅ ∅.

(** A decoder for which the document 0 is a mismatch. *)
Definition sample_decode (d : nat) : decoded nat :=
  match d with
  | 0 => Mismatch nat 0
  | _ => Decoded nat d
  end.

(** The package state as declared, before [Init]; the flag is raised to
    watch it being cleared. *)
Definition sample_state : state nat nat :=
  mkState nat nat ∅ None (Some ∅) None "emacs" [] true sample_disk.


(** Two standard styles, one of them overridden by a custom style. *)
Definition sample_state_merge : state nat nat :=
  mkState nat nat {[1%positive := 10; 2%positive := 20; 3%positive := 30]}
          (Some {["emacs" := Some 1%positive; "monokai" := Some 2%positive]})
          (Some {["emacs" := Some 3%positive]})
          None "emacs" [] false sample_disk.

(** The package state as declared, with [null] for preferences. *)
Definition sample_state_null : state nat nat :=
  mkState nat nat ∅ None (Some ∅) None "emacs" [] false sample_disk_null.

(** No preferences, and a file elsewhere that holds [null]. *)
Definition sample_disk_blank : filesys nat :=
  mkFS nat {["/tmp/blank.json" := Text nat (JTopNull nat)]} ∅ ∅.

(** The package state as declared, on that disk. *)
Definition sample_state_blank : state nat nat :=
  mkState nat nat ∅ None (Some ∅) None "emacs" [] false sample_disk_blank.

(** A name of one byte, 255, which is not valid UTF-8. *)
Definition sample_name : string := String (Ascii.ascii_of_N 255) "".

Definition sample_Init : state nat nat → result (state nat nat) :=
  Init nat nat id sample_Registry None nat (Decoded nat) "/prefs" sample_Join [].

Definition sample_AvailStyle
  : string → state nat nat → result (option positive * state nat nat) :=
  AvailStyle nat nat id sample_Registry None nat (Decoded nat)
             "/prefs" sample_Join [].

(** * The properties at the sample configuration *)

Lemma MergeAvailStyles_custom_wins_witness :
  entries (AvailStyles nat nat (MergeAvailStyles nat nat [] sample_state_merge))
    !! "emacs" = Some (Some 3%positive) ∧
  entries (AvailStyles nat nat (MergeAvailStyles nat nat [] sample_state_merge))
    !! "monokai" = Some (Some 2%positive).
Proof.
  split.
  - apply (proj1 (MergeAvailStyles_custom_wins nat nat [] sample_state_merge
                    "emacs")).
    vm_compute. reflexivity.
  - apply (proj2 (MergeAvailStyles_custom_wins nat nat [] sample_state_merge
                    "monokai")); vm_compute; reflexivity.
Defined.

Lemma AvailStyle_entry_or_default_witness :
  sample_AvailStyle "monokai"
    (MergeAvailStyles nat nat [] sample_state_merge)
  = Ok (Some 2%positive, MergeAvailStyles nat nat [] sample_state_merge) ∧
  sample_AvailStyle "solarized"
    (MergeAvailStyles nat nat [] sample_state_merge)
  = Ok (Some 3%positive, MergeAvailStyles nat nat [] sample_state_merge).
Proof.
  pose proof (AvailStyle_entry_or_default nat nat id sample_Registry None nat
                (Decoded nat) "/prefs" sample_Join [] "monokai"
                (MergeAvailStyles nat nat [] sample_state_merge))
    as (Hpresent & _ & _).
  pose proof (AvailStyle_entry_or_default nat nat id sample_Registry None nat
                (Decoded nat) "/prefs" sample_Join [] "solarized"
                (MergeAvailStyles nat nat [] sample_state_merge))
    as (_ & Habsent & _).
  split.
  - eapply Hpresent; vm_compute; reflexivity.
  - eapply Habsent; vm_compute; reflexivity.
Defined.






Lemma StylesChanged_cleared_witness :
  StylesChanged nat nat sample_state = true ∧
  ∃ st', sample_Init sample_state = Ok st' ∧
         StylesChanged nat nat st' = false.
Proof.
  split; [reflexivity|].
  pose proof (StylesChanged_cleared nat nat id sample_Registry None nat Some
                (Decoded nat) "/prefs" sample_Join [] TheCustom sample_state)
    as (HInit & _).
  destruct (sample_Init sample_state) as [st'|msg] eqn:Hst'.
  - exists st'. split; [reflexivity|]. apply HInit. exact Hst'.
  - vm_compute in Hst'. discriminate.
Defined.

(** * Where the code departs from the specification *)


(** C4. [StyleNames] need not be sorted. The two merged styles are
    emacs and monokai; when the iteration visits monokai first (the
    second entry by name, [order] being 1), [StyleNames] is monokai,
    emacs. *)
Lemma StyleNames_not_sorted :
  StyleNames nat nat (MergeAvailStyles nat nat [1] sample_state_merge)
  = ["monokai"; "emacs"] ∧
  sorted_names
    (AvailStyles nat nat (MergeAvailStyles nat nat [1] sample_state_merge))
  = ["emacs"; "monokai"] ∧
  StyleNames nat nat (MergeAvailStyles nat nat [1] sample_state_merge)
  ≠ sorted_names
      (AvailStyles nat nat (MergeAvailStyles nat nat [1] sample_state_merge)).
Proof.
  assert (StyleNames nat nat (MergeAvailStyles nat nat [1] sample_state_merge)
          = ["monokai"; "emacs"]) as Hnames by (vm_compute; reflexivity).
  assert (sorted_names
            (AvailStyles nat nat
               (MergeAvailStyles nat nat [1] sample_state_merge))
          = ["emacs"; "monokai"]) as Hsorted by (vm_compute; reflexivity).
  split; [exact Hnames|]. split; [exact Hsorted|].
  rewrite Hnames, Hsorted. discriminate.
Qed.


(** C6. A load that leaves no custom style is not always followed by
    the seeding. The preferences are the text [null]: the load returns
    no error and leaves [CustomStyles] without entries, as the nil
    map, and [Init] stops at the assignment of the sample style
    instead of seeding it. *)
Lemma Init_seeds_nothing_after_null :
  (OpenPrefs nat nat (Decoded nat) "/prefs" sample_Join TheCustom
     (Init_std nat nat id sample_Registry nat [] sample_state_null)).2
  = None ∧
  len (CustomStyles nat nat
         (Init_load nat nat id sample_Registry nat (Decoded nat)
            "/prefs" sample_Join [] sample_state_null)) = 0 ∧
  sample_Init sample_state_null = Panic "assignment to entry in nil map".
Proof. repeat split; vm_compute; reflexivity. Qed.

(** C7. A name that is not valid UTF-8 does not come back. The
    collection holds one style, 30, which encodes and decodes to
    itself, under the name of the single byte 255. It is saved without
    error; the key is written as U+FFFD. The file is loaded without
    error into an empty collection, which then holds the style under
    the name U+FFFD and nothing under the name saved. *)
Lemma SaveJSON_OpenJSON_renames :
  ∃ fs' hs' h',
    SaveJSON nat nat Some (Some {[sample_name := Some 3%positive]})
             "/tmp/styles.json" {[3%positive := 30]} sample_disk
    = (fs', None) ∧
    files nat fs' !! "/tmp/styles.json"
    = Some (Text nat (JObject nat [(RuneError, JDoc nat 30)])) ∧
    OpenJSON nat nat (Decoded nat) (Some ∅) "/tmp/styles.json"
             {[3%positive := 30]} fs'
    = (hs', h', None) ∧
    entries hs' !! sample_name = None ∧
    deref nat h' (index hs' RuneError) = Some 30 ∧
    view nat h' hs'
    ≠ view nat {[3%positive := 30]} (Some {[sample_name := Some 3%positive]}).
Proof.
  destruct (SaveJSON nat nat Some (Some {[sample_name := Some 3%positive]})
              "/tmp/styles.json" {[3%positive := 30]} sample_disk)
    as [fs' e] eqn:Hsave.
  vm_compute in Hsave. injection Hsave as <- <-.
  destruct (OpenJSON nat nat (Decoded nat) (Some ∅) "/tmp/styles.json"
              {[3%positive := 30]}
              (put nat sample_disk "/tmp/styles.json"
                 (Text nat (JObject nat [(RuneError, JDoc nat 30)]))))
    as [[hs' h'] e] eqn:Hopen.
  vm_compute in Hopen. injection Hopen as <- <- <-.
  eexists _, _, _. split; [reflexivity|].
  split; [vm_compute; reflexivity|].
  split; [vm_compute; reflexivity|].
  split; [vm_compute; reflexivity|].
  split; [vm_compute; reflexivity|].
  intros Heq. apply (f_equal (λ m, m !! sample_name)) in Heq.
  vm_compute in Heq. discriminate.
Qed.

(** C8. [Init] can abort after a failed load. The custom styles have
    been opened from a file that holds [null], which left
    [CustomStyles] nil, and there is no preferences file. The load in
    [Init] fails with the error of the read, [CustomStyles] stays nil,
    and [Init] panics at the assignment of the sample style. *)
Lemma Init_aborts_after_failed_load :
  OpenJSON nat nat (Decoded nat) (CustomStyles nat nat sample_state_blank)
           "/tmp/blank.json" (heap nat nat sample_state_blank)
           (disk nat nat sample_state_blank)
  = (None, ∅, None) ∧
  (OpenPrefs nat nat (Decoded nat) "/prefs" sample_Join TheCustom
     (Init_std nat nat id sample_Registry nat []
        (store nat nat TheCustom None sample_state_blank))).2
  = Some ReadError ∧
  sample_Init (store nat nat TheCustom None sample_state_blank)
  = Panic "assignment to entry in nil map".
Proof. repeat split; vm_compute; reflexivity. Qed.

(** * Further cases at the sample configuration *)

(** When the preferences are the text [null], the load returns no
    error and sets [CustomStyles] to the nil map; [Init] then stops at
    the assignment of the sample style. *)
Example Init_null_preferences :
  sample_Init
    (mkState nat nat ∅ None (Some ∅) None "emacs" [] false sample_disk_null)
  = Panic "assignment to entry in nil map".
Proof. vm_compute. reflexivity. Qed.

(** A member that does not fit its type is reported once the other
    members have been stored. *)
Example OpenJSON_mismatch_after_store :
  ∃ hs' h',
    OpenJSON nat nat sample_decode (Some ∅) sample_prefs ∅ sample_disk_bad
    = (hs', h', Some UnmarshalTypeError) ∧
    deref nat h' (index hs' "mine") = Some 5.
Proof.
  destruct (OpenJSON nat nat sample_decode (Some ∅) sample_prefs ∅
              sample_disk_bad) as [[hs' h'] e] eqn:Hopen.
  vm_compute in Hopen. injection Hopen as <- <- <-.
  eexists _, _. split; [reflexivity|]. vm_compute. reflexivity.
Qed.

(** The iteration picks: with no selection the entries come by name,
    and selecting the second first swaps the two. *)
Example pick_second_first :
  pick [] ["emacs"; "monokai"] = ["emacs"; "monokai"] ∧
  pick [1] ["emacs"; "monokai"] = ["monokai"; "emacs"].
Proof. split; reflexivity. Qed.

(** The coercion of names: text that is valid UTF-8 is kept, a byte
    that begins no sequence becomes U+FFFD, and two names that differ
    in such bytes only are saved as one member name twice. *)
Example ToValidUTF8_cases :
  ToValidUTF8 "custom-sample" = "custom-sample" ∧
  ToValidUTF8 RuneError = RuneError ∧
  ToValidUTF8 sample_name = RuneError ∧
  MarshalIndent nat nat Some
    (Some {[sample_name := None;
            String (Ascii.ascii_of_N 254) "" := None]}) ∅
  = Some (JObject nat [(RuneError, JNull nat); (RuneError, JNull nat)]).
Proof. repeat split; vm_compute; reflexivity. Qed.

(** A write that fails after the open leaves the file truncated: the
    preferences held a style, and after the failed save they hold no
    valid JSON. *)
Example SaveJSON_truncates :
  SaveJSON nat nat Some (Some ∅) sample_prefs ∅
    (mkFS nat (files nat sample_disk_mine) ∅ {[sample_prefs := WriteFails]})
  = (mkFS nat {[sample_prefs := Malformed nat]} ∅
       {[sample_prefs := WriteFails]},
     Some WriteError).
Proof. vm_compute. reflexivity. Qed.

(** * The further properties at the sample configuration *)

Lemma AvailStyle_initialises_once_witness :
  ∃ p st',
    sample_AvailStyle "monokai" sample_state = Ok (p, st') ∧
    sample_AvailStyle "emacs" st' = Ok (fallback nat nat st' "emacs", st').
Proof.
  destruct (sample_AvailStyle "monokai" sample_state) as [[p st']|msg]
    eqn:Hcall; [|vm_compute in Hcall; discriminate].
  exists p, st'. split; [reflexivity|].
  apply (AvailStyle_initialises_once nat nat id sample_Registry None nat
           (Decoded nat) "/prefs" sample_Join [] "monokai" "emacs"
           sample_state st' p Hcall).
Defined.



Lemma Init_loads_the_registry_witness :
  ∃ st', sample_Init sample_state = Ok st' ∧
         deref nat (heap nat nat st') (index (StdStyles nat nat st') "monokai")
         = Some 2 ∧
         deref nat (heap nat nat st') (index (AvailStyles nat nat st') "emacs")
         = Some 1.
Proof.
  destruct (sample_Init sample_state) as [st'|msg] eqn:HInit;
    [|vm_compute in HInit; discriminate].
  destruct (Init_loads_the_registry nat nat id sample_Registry None nat
              (Decoded nat) "/prefs" sample_Join [] sample_state st' HInit)
    as (Hstd & Havail & _).
  exists st'. split; [reflexivity|]. split.
  - apply (Hstd "monokai" 2). vm_compute. reflexivity.
  - apply (Havail "emacs" 1); [vm_compute; reflexivity|].
    vm_compute in HInit. injection HInit as <-. vm_compute. reflexivity.
Defined.

Lemma Init_writes_no_file_witness :
  ∃ st', sample_Init sample_state = Ok st' ∧
         disk nat nat st' = sample_disk ∧
         StyleDefault nat nat st' = "emacs".
Proof.
  destruct (sample_Init sample_state) as [st'|msg] eqn:HInit;
    [|vm_compute in HInit; discriminate].
  destruct (Init_writes_no_file nat nat id sample_Registry None nat
              (Decoded nat) "/prefs" sample_Join [] sample_state st' HInit)
    as (Hdisk & Hdef & _).
  exists st'. split; [reflexivity|]. split; [exact Hdisk|exact Hdef].
Defined.

Lemma Init_fails_on_nil_custom_witness :
  sample_Init sample_state_null = Panic "assignment to entry in nil map".
Proof.
  destruct (Init_fails_on_nil_custom nat nat id sample_Registry None nat
              (Decoded nat) "/prefs" sample_Join [] sample_state_null)
    as [Hiff _].
  - exists 1. vm_compute. reflexivity.
  - apply Hiff. left. vm_compute. reflexivity.
Defined.

Lemma Init_again_witness :
  ∃ st' st'',
    sample_Init sample_state = Ok st' ∧
    sample_Init st' = Ok st'' ∧
    CustomStyles nat nat st'' = CustomStyles nat nat st'.
Proof.
  destruct (sample_Init sample_state) as [st'|msg] eqn:HInit;
    [|vm_compute in HInit; discriminate].
  destruct (Init_again nat nat id sample_Registry None nat
              (Decoded nat) "/prefs" sample_Join [] sample_state st' HInit)
    as (HInit' & _ & _ & _ & _ & Hsame).
  - vm_compute. discriminate.
  - exists st'. eexists. split; [reflexivity|]. split; [exact HInit'|].
    apply Hsame. intros kvs. vm_compute. discriminate.
Defined.
